(** * cpython-build-assist: selection of release tags and the build driver

    A shallow embedding of [install_cpython.py] and
    [install_all_minor_versions.py].

    - Part 1 models Python's exceptions and the values of the
      [semantic_version] package the scripts import ([Version] and its
      precedence order).
    - Part 2 models what the scripts use of Python's strings, lists and
      dicts, and the parser of [semantic_version].
    - Part 3 embeds the scripts: the functions both define, the outside
      world (processes, the terminal, [/etc/os-release]) with a state and
      exception monad over it, then each script in a module of its own.
    - Parts 3b, 3c and 3d define the notions the statements use and the
      concrete inputs of the examples.
    - Part 4 holds the lemmas and the theorems, Part 5 further properties
      of the scripts.

    Strings are Rocq [string]s, i.e. sequences of 8-bit characters.  A
    Python [bytes] value is read as such; a Python [str] value as its UTF-8
    bytes, whose lexicographic order is the code point order Python compares
    strings with.  [bytes.decode()] checks that the bytes are UTF-8, and
    whitespace is what [str.isspace()] holds of.  The scripts slice a [str]
    only to compare the slice with ASCII text ([line[:8]]) or once such a
    comparison has succeeded ([version_tag[1:]], [line[8:]]): there a cut
    after [n] bytes and a cut after [n] characters give the same answer. *)

From Stdlib Require Import List String Ascii NArith ZArith Bool Lia.
From Stdlib Require Import Permutation Sorted DecimalString DecimalN.
Import ListNotations.
Local Open Scope string_scope.
Local Open Scope list_scope.

(* ====================================================================== *)
(** * Part 1: exceptions and the [semantic_version] values               *)
(* ====================================================================== *)

(** The Python exceptions the scripts can meet. *)
Inductive exn : Type :=
| IndexError
| ValueError (msg : string)
| OSError
| KeyError
| CalledProcessError (returncode : Z)
| FileNotFoundError.

Inductive result (A : Type) : Type :=
| OK (a : A)
| Raise (e : exn).
Arguments OK {A} a.
Arguments Raise {A} e.

(** [comparison]s chained the way tuples compare: the first component that
    differs decides. *)
Definition lex (c d : comparison) : comparison :=
  match c with Eq => d | _ => c end.

(** One element of [Version.precedence_key]'s prerelease tuple. *)
Inductive identifier : Type :=
| NumericIdentifier (value : N)
| AlphaIdentifier (value : string)
| MaxIdentifier.

Definition identifier_compare (a b : identifier) : comparison :=
  match a, b with
  | NumericIdentifier x, NumericIdentifier y => N.compare x y
  | NumericIdentifier _, _ => Lt
  | AlphaIdentifier _, NumericIdentifier _ => Gt
  | AlphaIdentifier x, AlphaIdentifier y => String.compare x y
  | AlphaIdentifier _, MaxIdentifier => Lt
  | MaxIdentifier, MaxIdentifier => Eq
  | MaxIdentifier, _ => Gt
  end.

(** Python's comparison of two tuples. *)
Fixpoint tuple_compare (l1 l2 : list identifier) : comparison :=
  match l1, l2 with
  | [], [] => Eq
  | [], _ :: _ => Lt
  | _ :: _, [] => Gt
  | x :: l1', y :: l2' => lex (identifier_compare x y) (tuple_compare l1' l2')
  end.

(** A [semantic_version.Version]: three numbers, the prerelease identifiers
    and the build identifiers. *)
Record Version : Type := mkVersion {
  major : N;
  minor : N;
  patch : N;
  prerelease : list string;
  build : list string
}.

Definition is_digit (c : ascii) : bool :=
  let n := N_of_ascii c in (48 <=? n)%N && (n <=? 57)%N.

Fixpoint all_chars (p : ascii -> bool) (s : string) : bool :=
  match s with
  | EmptyString => true
  | String c s' => p c && all_chars p s'
  end.

(** [str.isdigit] (false on the empty string). *)
Definition isdigit (s : string) : bool :=
  match s with
  | EmptyString => false
  | _ => all_chars is_digit s
  end.

(** [int(s)] for a string of decimal digits. *)
Fixpoint int_of_digits (acc : N) (s : string) : N :=
  match s with
  | EmptyString => acc
  | String c s' => int_of_digits (10 * acc + (N_of_ascii c - 48))%N s'
  end.

Definition prerelease_key (pre : list string) : list identifier :=
  match pre with
  | [] => [MaxIdentifier]
  | _ => map (fun part => if isdigit part
                          then NumericIdentifier (int_of_digits 0 part)
                          else AlphaIdentifier part) pre
  end.

(** The comparison of two [precedence_key]s
    [(major, minor, patch, prerelease_key)]; build identifiers take no part
    in it. *)
Definition Version_compare (a b : Version) : comparison :=
  lex (N.compare (major a) (major b))
   (lex (N.compare (minor a) (minor b))
    (lex (N.compare (patch a) (patch b))
         (tuple_compare (prerelease_key (prerelease a))
                        (prerelease_key (prerelease b))))).

(** [a < b], [a > b], [a <= b], [a >= b] on versions. *)
Definition Version_lt (a b : Version) : bool :=
  match Version_compare a b with Lt => true | _ => false end.
Definition Version_gt (a b : Version) : bool :=
  match Version_compare a b with Gt => true | _ => false end.
Definition Version_le (a b : Version) : bool :=
  match Version_compare a b with Gt => false | _ => true end.
Definition Version_ge (a b : Version) : bool :=
  match Version_compare a b with Lt => false | _ => true end.

(** What the proofs need of a three-way comparison: it is a total
    preorder. *)
Record total_preorder {A : Type} (cmp : A -> A -> comparison) : Prop := {
  cmp_opp : forall x y, cmp y x = CompOpp (cmp x y);
  cmp_lt_trans : forall x y z, cmp x y = Lt -> cmp y z = Lt -> cmp x z = Lt;
  cmp_eq_l : forall x y z, cmp x y = Eq -> cmp x z = cmp y z
}.
Arguments cmp_opp {A cmp} _ x y.
Arguments cmp_lt_trans {A cmp} _ x y z _ _.
Arguments cmp_eq_l {A cmp} _ x y z _.

(* ====================================================================== *)
(** * Part 2: strings, lists and dicts as Python has them                *)
(* ====================================================================== *)

Definition bind {A B : Type} (r : result A) (k : A -> result B) : result B :=
  match r with
  | OK a => k a
  | Raise e => Raise e
  end.

Notation "'let?' x ':=' e 'in' k" := (bind e (fun x => k))
  (at level 10, x name, e at level 100, k at level 200).

(** A list comprehension [[f(x) for x in l]] whose element expression can
    raise: the first exception ends it. *)
Fixpoint comprehension {A B : Type} (f : A -> result B) (l : list A)
  : result (list B) :=
  match l with
  | [] => OK []
  | x :: l' =>
      let? y := f x in
      let? ys := comprehension f l' in
      OK (y :: ys)
  end.

(** [str(n)] of an integer. *)
Definition str_of_N (n : N) : string := NilEmpty.string_of_uint (N.to_uint n).
Definition str_of_Z (z : Z) : string := NilEmpty.string_of_int (Z.to_int z).

(** The slices [s[:n]] and [s[n:]]. *)
Fixpoint take (n : nat) (s : string) : string :=
  match n, s with
  | S n', String c s' => String c (take n' s')
  | _, _ => EmptyString
  end.

Fixpoint drop (n : nat) (s : string) : string :=
  match n, s with
  | S n', String _ s' => drop n' s'
  | _, _ => s
  end.

(** ** Text and bytes

    A [string] holds either the bytes a process wrote or a Python [str], the
    latter as its UTF-8 encoding.  [decode] is the passage from the first to
    the second. *)

Definition byte_in (lo hi : N) (c : ascii) : bool :=
  let n := N_of_ascii c in (lo <=? n)%N && (n <=? hi)%N.

(** The string of the bytes [l]. *)
Definition bytes (l : list N) : string :=
  fold_right (fun n s => String (ascii_of_N n) s) EmptyString l.

Definition continuation : N * N := (128, 191)%N.

(** The ranges the bytes after the first byte [c] of a well-formed UTF-8
    sequence lie in (the Unicode Standard, table 3-7); [None] when no
    sequence starts with [c]. *)
Definition utf8_tail (c : ascii) : option (list (N * N)) :=
  let n := N_of_ascii c in
  if (n <=? 127)%N then Some []
  else if byte_in 194 223 c then Some [continuation]
  else if (n =? 224)%N then Some [(160, 191)%N; continuation]
  else if byte_in 225 236 c then Some [continuation; continuation]
  else if (n =? 237)%N then Some [(128, 159)%N; continuation]
  else if byte_in 238 239 c then Some [continuation; continuation]
  else if (n =? 240)%N then Some [(144, 191)%N; continuation; continuation]
  else if byte_in 241 243 c then Some [continuation; continuation; continuation]
  else if (n =? 244)%N then Some [(128, 143)%N; continuation; continuation]
  else None.

(** [s] is well-formed UTF-8, once the bytes [expect] asks for have been
    read. *)
Fixpoint well_formed (expect : list (N * N)) (s : string) : bool :=
  match s with
  | EmptyString => match expect with [] => true | _ :: _ => false end
  | String c s' =>
      match expect with
      | (lo, hi) :: rest => byte_in lo hi c && well_formed rest s'
      | [] =>
          match utf8_tail c with
          | Some rest => well_formed rest s'
          | None => false
          end
      end
  end.

(** [UnicodeDecodeError] is a [ValueError]; nothing in the scripts tells
    the two apart.  (Python's message also names the byte and its
    position.) *)
Definition UnicodeDecodeError : exn :=
  ValueError "'utf-8' codec can't decode bytes".

(** [b.decode()]: the text, as its UTF-8 bytes, when [b] is well-formed. *)
Definition decode (b : string) : result string :=
  if well_formed [] b then OK b else Raise UnicodeDecodeError.

(** ** Whitespace

    [str.split()] and [str.strip()] take as whitespace the characters
    [str.isspace()] holds of: the ASCII ones, and U+0085, U+00A0, U+1680,
    U+2000 to U+200A, U+2028, U+2029, U+202F, U+205F and U+3000. *)

(** The ASCII whitespace: tab to carriage return, the four separators, the
    space. *)
Definition is_space (c : ascii) : bool :=
  let n := N_of_ascii c in
  ((9 <=? n)%N && (n <=? 13)%N) || ((28 <=? n)%N && (n <=? 32)%N).

(** The other whitespace characters, in UTF-8. *)
Definition wide_spaces : list string :=
  map bytes
      [[194; 133]; [194; 160]; [225; 154; 128];
       [226; 128; 128]; [226; 128; 129]; [226; 128; 130]; [226; 128; 131];
       [226; 128; 132]; [226; 128; 133]; [226; 128; 134]; [226; 128; 135];
       [226; 128; 136]; [226; 128; 137]; [226; 128; 138];
       [226; 128; 168]; [226; 128; 169]; [226; 128; 175];
       [226; 129; 159]; [227; 128; 128]]%N.

(** [s[:len(p)] == p]. *)
Fixpoint starts_with (p s : string) : bool :=
  match p, s with
  | EmptyString, _ => true
  | String a p', String b s' => Ascii.eqb a b && starts_with p' s'
  | String _ _, EmptyString => false
  end.

(** The number of bytes of the whitespace character [s] starts with; 0 when
    it starts with none. *)
Definition space_width (s : string) : nat :=
  match s with
  | EmptyString => 0
  | String c _ =>
      if is_space c then 1
      else match find (fun sp => starts_with sp s) wide_spaces with
           | Some sp => String.length sp
           | None => 0
           end
  end.

(** No whitespace character starts anywhere in [s]. *)
Fixpoint spaceless (s : string) : bool :=
  match s with
  | EmptyString => true
  | String _ s' => Nat.eqb (space_width s) 0 && spaceless s'
  end.

(** [s.split()]: the maximal runs of non-whitespace characters.  [tok] is
    the run read so far, [skip] the number of bytes still to pass of the
    whitespace character being read. *)
Fixpoint split_from (skip : nat) (tok : string) (s : string) : list string :=
  match s with
  | EmptyString => match tok with EmptyString => [] | _ => [tok] end
  | String c s' =>
      match skip with
      | S k => split_from k tok s'
      | O =>
          match space_width s with
          | O => split_from 0 (tok ++ String c EmptyString) s'
          | S k =>
              match tok with
              | EmptyString => split_from k EmptyString s'
              | _ => tok :: split_from k EmptyString s'
              end
          end
      end
  end.

Definition split (s : string) : list string := split_from 0 EmptyString s.

(** [s.split(sep)] for a one-character separator: empty pieces are kept. *)
Fixpoint split_on_from (sep : ascii) (tok : string) (s : string) : list string :=
  match s with
  | EmptyString => [tok]
  | String c s' =>
      if Ascii.eqb c sep
      then tok :: split_on_from sep EmptyString s'
      else split_on_from sep (tok ++ String c EmptyString) s'
  end.

Definition split_on (sep : ascii) (s : string) : list string :=
  split_on_from sep EmptyString s.

(** [s.lstrip()]. *)
Fixpoint lstrip_from (skip : nat) (s : string) : string :=
  match s with
  | EmptyString => EmptyString
  | String _ s' =>
      match skip with
      | S k => lstrip_from k s'
      | O =>
          match space_width s with
          | O => s
          | S k => lstrip_from k s'
          end
      end
  end.

Definition lstrip (s : string) : string := lstrip_from 0 s.

(** [s] holds whitespace only (the empty string counts). *)
Fixpoint blank_from (skip : nat) (s : string) : bool :=
  match s with
  | EmptyString => true
  | String _ s' =>
      match skip with
      | S k => blank_from k s'
      | O =>
          match space_width s with
          | O => false
          | S k => blank_from k s'
          end
      end
  end.

(** [s.rstrip()]: [s] up to the point after which only whitespace
    follows. *)
Fixpoint rstrip (s : string) : string :=
  match s with
  | EmptyString => EmptyString
  | String c s' => if blank_from 0 s then EmptyString else String c (rstrip s')
  end.

Definition strip (s : string) : string := rstrip (lstrip s).

(** A Python [dict] with string keys: the items in insertion order. *)
Definition dict (V : Type) : Type := list (string * V).

(** [d[k]]. *)
Fixpoint dict_get {V : Type} (d : dict V) (k : string) : option V :=
  match d with
  | [] => None
  | (k', v) :: d' => if String.eqb k' k then Some v else dict_get d' k
  end.

(** [d[k] = v]: an existing key keeps its place, a new one goes last. *)
Fixpoint dict_set {V : Type} (d : dict V) (k : string) (v : V) : dict V :=
  match d with
  | [] => [(k, v)]
  | (k', v') :: d' =>
      if String.eqb k' k then (k', v) :: d' else (k', v') :: dict_set d' k v
  end.

(** [sorted(l, reverse=True)] on strings.  The sort is stable; on strings
    equal elements are the same string, so any stable sort gives the one
    descending arrangement. *)
Fixpoint insert_desc (x : string) (l : list string) : list string :=
  match l with
  | [] => [x]
  | y :: l' => if String.leb y x then x :: l else y :: insert_desc x l'
  end.

Fixpoint sorted_reverse (l : list string) : list string :=
  match l with
  | [] => []
  | x :: l' => insert_desc x (sorted_reverse l')
  end.

(** ** The parser of [semantic_version], as the scripts see it

    [Version(s)] either returns a version or raises [ValueError].  The
    scripts are embedded over any such parser; [semver_parse] below is the
    strict SemVer 2.0 grammar the package implements, on ASCII text (the
    [\d] of the package's pattern also matches the decimal digits of other
    scripts, which are left out here). *)
Class SemVer : Type := {
  Version_parse : string -> option Version
}.

Definition is_alnum_dot_dash (c : ascii) : bool :=
  let n := N_of_ascii c in
  is_digit c || ((65 <=? n)%N && (n <=? 90)%N) || ((97 <=? n)%N && (n <=? 122)%N)
  || Ascii.eqb c "." || Ascii.eqb c "-".

(** [s.partition(sep)]: the part before the first [sep] and, when there is
    one, the part after it. *)
Fixpoint partition_at (sep : ascii) (s : string) : string * option string :=
  match s with
  | EmptyString => (EmptyString, None)
  | String c s' =>
      if Ascii.eqb c sep then (EmptyString, Some s')
      else let (a, b) := partition_at sep s' in (String c a, b)
  end.

Definition has_leading_zero (value : string) : bool :=
  match value with
  | String "0" (String _ _) => isdigit value
  | _ => false
  end.

Definition nonempty (s : string) : bool :=
  match s with EmptyString => false | _ => true end.

(** The longest decimal numeral [int()] converts (the default of
    [sys.set_int_max_str_digits]); a longer one raises [ValueError]. *)
Definition int_max_str_digits : nat := 4300.

(** A numeric component: digits, no leading zero, within the limit of
    [int()]. *)
Definition parse_component (s : string) : option N :=
  if isdigit s && negb (has_leading_zero s)
     && Nat.leb (String.length s) int_max_str_digits
  then Some (int_of_digits 0 s)
  else None.

(** The identifiers after [-] or [+]: a non-empty string over
    [[0-9a-zA-Z.-]], split at the dots into non-empty parts; numeric
    prerelease parts have no leading zero. *)
Definition parse_identifiers (allow_leading_zeroes : bool) (o : option string)
  : option (list string) :=
  match o with
  | None => Some []
  | Some s =>
      let parts := split_on "." s in
      if nonempty s && all_chars is_alnum_dot_dash s
         && forallb nonempty parts
         && (allow_leading_zeroes
             || forallb (fun part => negb (has_leading_zero part)) parts)
      then Some parts
      else None
  end.

(** The [$] that ends the package's pattern also matches before a line
    feed that ends the string. *)
Fixpoint chop_line_feed (s : string) : string :=
  match s with
  | EmptyString => EmptyString
  | String c EmptyString => if Ascii.eqb c "010" then EmptyString else s
  | String c s' => String c (chop_line_feed s')
  end.

Definition semver_parse (version_string : string) : option Version :=
  let version_string := chop_line_feed version_string in
  let (core_pre, build_part) := partition_at "+" version_string in
  let (core, pre_part) := partition_at "-" core_pre in
  match split_on "." core with
  | [a; b; c] =>
      match parse_component a, parse_component b, parse_component c,
            parse_identifiers false pre_part, parse_identifiers true build_part
      with
      | Some ma, Some mi, Some pa, Some pre, Some bld =>
          Some (mkVersion ma mi pa pre bld)
      | _, _, _, _, _ => None
      end
  | _ => None
  end.

Definition semver : SemVer := {| Version_parse := semver_parse |}.

(* ====================================================================== *)
(** * Part 3: the scripts                                                 *)
(* ====================================================================== *)

(** ** Functions both scripts define, with the same text *)

Section Selection.
Context {sv : SemVer}.

(** [Version(version_string)].  (The package's message also quotes the
    string.) *)
Definition Version_init (version_string : string) : result Version :=
  match Version_parse version_string with
  | Some v => OK v
  | None => Raise (ValueError "Invalid version string")
  end.

Definition safe_parse_version (version_str : string)
  : result (option Version) :=
  match Version_init version_str with
  | OK v => OK (Some v)
  | Raise (ValueError _) => OK None
  | Raise e => Raise e
  end.

(** [version_tag[0]] raises [IndexError] on the empty string. *)
Definition normalize_version (version_tag : string)
  : result (string * option Version) :=
  match version_tag with
  | EmptyString => Raise IndexError
  | String c _ =>
      if Ascii.eqb c "v"
      then let? version := safe_parse_version (drop 1 version_tag) in
           OK (version_tag, version)
      else let? version := safe_parse_version version_tag in
           OK (version_tag, version)
  end.

(** [[(s, v) for s, v in versions if v is not None]]. *)
Fixpoint drop_unparsed (versions : list (string * option Version))
  : list (string * Version) :=
  match versions with
  | [] => []
  | (version_str, Some version) :: rest =>
      (version_str, version) :: drop_unparsed rest
  | (_, None) :: rest => drop_unparsed rest
  end.

(** The dict key [f'{version.major}.{version.minor}']. *)
Definition minor_key (version : Version) : string :=
  str_of_N (major version) ++ "." ++ str_of_N (minor version).

(** [{key(v): [] for tag, v in versions}]. *)
Fixpoint empty_groups (versions : list (string * Version))
         (d : dict (list (string * Version))) : dict (list (string * Version)) :=
  match versions with
  | [] => d
  | (_, version) :: rest => empty_groups rest (dict_set d (minor_key version) [])
  end.

(** The loop [for tag, v in versions: d[key(v)].append((tag, v))]. *)
Fixpoint append_to_groups (versions : list (string * Version))
         (d : dict (list (string * Version)))
  : result (dict (list (string * Version))) :=
  match versions with
  | [] => OK d
  | (version_tag, version) :: rest =>
      match dict_get d (minor_key version) with
      | None => Raise KeyError
      | Some group =>
          append_to_groups rest
            (dict_set d (minor_key version) (group ++ [(version_tag, version)]))
      end
  end.

(** [max(versions, key=lambda x: x[1])]: the first element no later element
    is greater than; [ValueError] on an empty list. *)
Fixpoint max_from (best : string * Version) (versions : list (string * Version))
  : string * Version :=
  match versions with
  | [] => best
  | x :: rest =>
      if Version_gt (snd x) (snd best) then max_from x rest
      else max_from best rest
  end.

Definition max_by_version (versions : list (string * Version))
  : result (string * Version) :=
  match versions with
  | [] => Raise (ValueError "max() arg is an empty sequence")
  | x :: rest => OK (max_from x rest)
  end.

(** The part "Group by minor version" and "Get maximum" of
    [get_latest_minor_versions]. *)
Definition latest_of_groups (versions : list (string * Version))
  : result (list (string * Version)) :=
  let versions_by_minor_version := empty_groups versions [] in
  let? versions_by_minor_version :=
    append_to_groups versions versions_by_minor_version in
  comprehension (fun item => max_by_version (snd item))
                versions_by_minor_version.

(** [[(tag, v) for tag, v in versions if v >= Version(bound)]] and its
    [<=] twin: the bound is parsed once per element. *)
Fixpoint filter_versions (keep : Version -> Version -> bool) (bound : string)
         (versions : list (string * Version))
  : result (list (string * Version)) :=
  match versions with
  | [] => OK []
  | (version_tag, version) :: rest =>
      let? b := Version_init bound in
      let? rest' := filter_versions keep bound rest in
      OK (if keep version b then (version_tag, version) :: rest' else rest')
  end.

End Selection.

(** ** The outside world: processes, the terminal, [/etc/os-release] *)

(** A process that has run: its exit status and the bytes it wrote to its
    standard output and to its standard error. *)
Record completed : Type := {
  returncode : Z;
  out : string;
  err : string
}.

(** What [open('/etc/os-release').read()] gives: the text of the file, or
    the file is missing, cannot be read, or does not decode in the encoding
    of the locale. *)
Inductive file_read : Type :=
| Content (text : string)
| NoSuchFile
| Unreadable
| NotText.

(** The world answers a process launch ([None]: the program could not be
    started) and the reading of [/etc/os-release].  The terminal takes every
    text printed. *)
Class Outside : Type := {
  World : Type;
  spawn : World -> list string -> option string -> World * option completed;
  os_release : World -> file_read
}.

Inductive stream : Type := stdout | stderr.

Inductive event {O : Outside} : Type :=
| Exec (argv : list string) (cwd : option string) (outcome : option completed)
| Print (file : stream) (text : string).

Record state {O : Outside} : Type := mkState {
  world : World;
  log : list event
}.
Arguments mkState {O} world log.

(** [OSError] and its subclasses, as [except OSError] sees them. *)
Definition is_OSError (e : exn) : bool :=
  match e with
  | OSError | FileNotFoundError => true
  | _ => false
  end.

Section Effects.
Context {sv : SemVer} {O : Outside}.

Definition M (A : Type) : Type := state -> state * result A.

Definition ret {A : Type} (a : A) : M A := fun st => (st, OK a).

Definition raise {A : Type} (e : exn) : M A := fun st => (st, Raise e).

Definition bindM {A B : Type} (m : M A) (k : A -> M B) : M B :=
  fun st =>
    match m st with
    | (st', OK a) => k a st'
    | (st', Raise e) => (st', Raise e)
    end.

Definition lift {A : Type} (r : result A) : M A := fun st => (st, r).

(** [try: body  except OSError: handler]. *)
Definition try_except_OSError (body handler : M unit) : M unit :=
  fun st =>
    match body st with
    | (st', Raise e) => if is_OSError e then handler st' else (st', Raise e)
    | r => r
    end.

(** [for x in l: body(x)]. *)
Fixpoint for_each {A : Type} (l : list A) (body : A -> M unit) : M unit :=
  match l with
  | [] => ret tt
  | x :: l' => bindM (body x) (fun _ => for_each l' body)
  end.

Definition print (file : stream) (text : string) : M unit :=
  fun st => (mkState (world st) (log st ++ [Print file text]), OK tt).

(** [Popen(argv, cwd=cwd, stdout=PIPE, stderr=PIPE)] and [communicate()]. *)
Definition popen (argv : list string) (cwd : option string) : M completed :=
  fun st =>
    let (w, outcome) := spawn (world st) argv cwd in
    let st' := mkState w (log st ++ [Exec argv cwd outcome]) in
    match outcome with
    | Some proc => (st', OK proc)
    | None => (st', Raise FileNotFoundError)
    end.

(** [subprocess.check_output(argv, cwd=cwd)]: the bytes the process wrote
    to its standard output. *)
Definition check_output (argv : list string) (cwd : option string) : M string :=
  bindM (popen argv cwd) (fun proc =>
  if (returncode proc =? 0)%Z then ret (out proc)
  else raise (CalledProcessError (returncode proc))).

Definition get_versions (cpython_repo_dir : string) : M (list string) :=
  bindM (check_output (split "git tag") (Some cpython_repo_dir)) (fun output =>
  bindM (lift (decode output)) (fun text =>
  ret (split text))).

Definition safe_run_process (cmd : string) (cwd : option string) : M unit :=
  bindM (popen (split cmd) cwd) (fun proc =>
  if negb (returncode proc =? 0)%Z
  then bindM (print stdout (str_of_Z (returncode proc))) (fun _ =>
       bindM (lift (decode (out proc))) (fun out_text =>
       bindM (print stdout out_text) (fun _ =>
       bindM (lift (decode (err proc))) (fun err_text =>
       bindM (print stderr err_text) (fun _ =>
       raise OSError)))))
  else ret tt).

(** [open('/etc/os-release').read()]. *)
Definition read_os_release : M string :=
  fun st =>
    match os_release (world st) with
    | Content text => (st, OK text)
    | NoSuchFile => (st, Raise FileNotFoundError)
    | Unreadable => (st, Raise OSError)
    | NotText => (st, Raise UnicodeDecodeError)
    end.

End Effects.

Declare Scope io_scope.
Delimit Scope io_scope with io.
Notation "x <- e ;; k" := (bindM e (fun x => k))
  (at level 100, e at next level, right associativity) : io_scope.
Notation "e ;; k" := (bindM e (fun _ => k))
  (at level 100, right associativity) : io_scope.

(** ** [install_all_minor_versions.py] *)

Module InstallAllMinorVersions.

Record Args : Type := {
  cpython_repo_dir : string;
  minimum_python_version : string;
  pull : bool
}.

Section Script.
Context {sv : SemVer} {O : Outside}.
Local Open Scope io_scope.

Definition get_latest_minor_versions (versions : list string)
           (minimum_version : string) : result (list (string * Version)) :=
  (* Drop the leading 'v' and parse where possible: *)
  let? versions := comprehension normalize_version versions in
  let versions := drop_unparsed versions in
  (* Filter minimum version: *)
  let? versions := filter_versions Version_ge minimum_version versions in
  (* Group by minor version, get maximum: *)
  latest_of_groups versions.

(** The body of the [try] in the loop of [__main__]. *)
Definition build_version (repo version_tag : string) : M unit :=
  print stdout (">>> Getting " ++ version_tag) ;;
  safe_run_process "git add -A" (Some repo) ;;
  safe_run_process "git reset --hard" (Some repo) ;;
  safe_run_process ("git checkout " ++ version_tag) (Some repo) ;;
  print stdout (">>> Configuring " ++ version_tag) ;;
  safe_run_process "./configure" (Some repo) ;;
  print stdout (">>> Cleaning " ++ version_tag) ;;
  safe_run_process "make clean" (Some repo) ;;
  print stdout (">>> Making " ++ version_tag) ;;
  safe_run_process "make" (Some repo) ;;
  print stdout (">>> Installing " ++ version_tag) ;;
  safe_run_process "make altinstall" (Some repo).

(** The loop of [__main__]. *)
Definition build_all (repo : string) (version_tags : list string) : M unit :=
  for_each (sorted_reverse version_tags) (fun version_tag =>
    try_except_OSError (build_version repo version_tag) (ret tt)).

(** [__main__], first part: the selected tags and the initial ref. *)
Definition select_and_record (args : Args) : M (list string * string) :=
  let repo := cpython_repo_dir args in
  versions <- get_versions repo ;;
  versions <- lift (get_latest_minor_versions versions
                      (minimum_python_version args)) ;;
  let version_tags := map fst versions in
  output <- check_output (split "git rev-parse HEAD") (Some repo) ;;
  initial_ref <- lift (decode output) ;;
  let initial_ref := strip initial_ref in
  print stdout (">>> Initial ref: " ++ initial_ref) ;;
  ret (version_tags, initial_ref).

(** [__main__], second part: the pull. *)
Definition set_up (args : Args) : M unit :=
  let repo := cpython_repo_dir args in
  if pull args
  then print stdout ">>> Pulling" ;; safe_run_process "git pull" (Some repo)
  else print stdout ">>> Skipping pulling".

(** [__main__] up to the loop. *)
Definition prepare (args : Args) : M (list string * string) :=
  p <- select_and_record args ;;
  set_up args ;;
  ret p.

(** [__main__] after the loop. *)
Definition restore (repo initial_ref : string) : M unit :=
  print stdout (">>> Restoring head to " ++ initial_ref) ;;
  _ <- check_output (split ("git checkout " ++ initial_ref)) (Some repo) ;;
  ret tt.

Definition main (args : Args) : M unit :=
  p <- prepare args ;;
  build_all (cpython_repo_dir args) (fst p) ;;
  restore (cpython_repo_dir args) (snd p).

End Script.
End InstallAllMinorVersions.

(** ** [install_cpython.py] *)

Module InstallCpython.

Inductive DistroLike : Type :=
| Debian
| RedHatFedora.

(** The value of an enum member, and the lookup [DistroLike(value)]. *)
Definition DistroLike_value (d : DistroLike) : string :=
  match d with
  | Debian => "debian"
  | RedHatFedora => "rhel fedora"
  end.

Definition DistroLike_of_value (value : string) : result DistroLike :=
  if String.eqb value (DistroLike_value Debian) then OK Debian
  else if String.eqb value (DistroLike_value RedHatFedora) then OK RedHatFedora
  else Raise (ValueError (value ++ " is not a valid DistroLike")).

Definition target_prefix : string := "ID_LIKE=".

(** The list [os_release] built by [detect_distro_like] from what
    [f.read()] returned. *)
Definition id_like_values (content : string) : list string :=
  map (fun line => drop (String.length target_prefix) line)
      (filter (fun line =>
                 String.eqb (take (String.length target_prefix) line)
                            target_prefix)
              (split content)).

(** [detect_distro_like], from the content of [/etc/os-release]. *)
Definition detect_distro_like (content : string) : result DistroLike :=
  let os_release := id_like_values content in
  if negb (Nat.eqb (List.length os_release) 1)
  then Raise (ValueError "Unexpected format of /etc/os-release")
  else
    let distro_like := last os_release EmptyString in
    match DistroLike_of_value distro_like with
    | OK d => OK d
    | Raise (ValueError _) =>
        Raise (ValueError ("Unsupported distro: " ++ distro_like))
    | Raise e => Raise e
    end.

Record Args : Type := {
  cpython_repo_dir : string;
  minimum_python_version : option string;
  maximum_python_version : option string;
  pull : bool
}.

Section Script.
Context {sv : SemVer} {O : Outside}.
Local Open Scope io_scope.

Definition install_system_dependencies (distro_like : DistroLike) : M unit :=
  match distro_like with
  | Debian =>
      safe_run_process "apt update" None ;;
      safe_run_process "apt build-dep -y python3" None ;;
      safe_run_process
        ("apt install -y build-essential gdb lcov libbz2-dev libffi-dev libgdbm-dev liblzma-dev "
         ++ "libncurses5-dev libreadline6-dev libsqlite3-dev libssl-dev lzma lzma-dev tk-dev uuid-dev zlib1g-dev")
        None
  | RedHatFedora =>
      safe_run_process "yum install -y yum-utils" None ;;
      safe_run_process "yum-builddep -y python3" None
  end.

Definition get_latest_minor_versions (versions : list string)
  : result (list (string * Version)) :=
  (* Drop the leading 'v' and parse where possible: *)
  let? versions := comprehension normalize_version versions in
  let versions := drop_unparsed versions in
  (* Group by minor version, get maximum: *)
  latest_of_groups versions.

(** The selection in [__main__]: [get_latest_minor_versions], then the two
    bound filters. *)
Definition select_versions (minimum maximum : option string)
           (versions : list string) : result (list (string * Version)) :=
  let? versions := get_latest_minor_versions versions in
  let? versions :=
    match minimum with
    | Some bound => filter_versions Version_ge bound versions
    | None => OK versions
    end in
  match maximum with
  | Some bound => filter_versions Version_le bound versions
  | None => OK versions
  end.

(** The body of the [try] in the loop of [__main__]. *)
Definition build_version (repo version_tag : string) : M unit :=
  print stdout (">>> Getting " ++ version_tag) ;;
  safe_run_process "git add -A" (Some repo) ;;
  safe_run_process "git reset --hard" (Some repo) ;;
  safe_run_process ("git checkout " ++ version_tag) (Some repo) ;;
  print stdout (">>> Configuring " ++ version_tag) ;;
  safe_run_process "./configure --enable-optimizations" (Some repo) ;;
  print stdout (">>> Cleaning " ++ version_tag) ;;
  safe_run_process "make clean" (Some repo) ;;
  print stdout (">>> Making " ++ version_tag) ;;
  safe_run_process "make -j" (Some repo) ;;
  print stdout (">>> Installing " ++ version_tag) ;;
  safe_run_process "make altinstall" (Some repo).

(** The loop of [__main__]. *)
Definition build_all (repo : string) (version_tags : list string) : M unit :=
  for_each (sorted_reverse version_tags) (fun version_tag =>
    try_except_OSError (build_version repo version_tag) (ret tt)).

(** [__main__], first part: the selected tags and the initial ref. *)
Definition select_and_record (args : Args) : M (list string * string) :=
  let repo := cpython_repo_dir args in
  versions <- get_versions repo ;;
  versions <- lift (select_versions (minimum_python_version args)
                                    (maximum_python_version args) versions) ;;
  let version_tags := map fst versions in
  output <- check_output (split "git rev-parse HEAD") (Some repo) ;;
  initial_ref <- lift (decode output) ;;
  let initial_ref := strip initial_ref in
  print stdout (">>> Initial ref: " ++ initial_ref) ;;
  ret (version_tags, initial_ref).

(** [__main__], second part: distro detection, system dependencies and the
    pull. *)
Definition set_up (args : Args) : M unit :=
  let repo := cpython_repo_dir args in
  (* Detect distro and install system dependencies: *)
  print stdout ">>> Installing system dependencies" ;;
  content <- read_os_release ;;
  distro_like <- lift (detect_distro_like content) ;;
  install_system_dependencies distro_like ;;
  if pull args
  then print stdout ">>> Pulling" ;; safe_run_process "git pull" (Some repo)
  else print stdout ">>> Skipping pulling".

(** [__main__] up to the loop. *)
Definition prepare (args : Args) : M (list string * string) :=
  p <- select_and_record args ;;
  set_up args ;;
  ret p.

(** [__main__] after the loop. *)
Definition restore (repo initial_ref : string) : M unit :=
  print stdout (">>> Restoring head to " ++ initial_ref) ;;
  _ <- check_output (split ("git checkout " ++ initial_ref)) (Some repo) ;;
  ret tt.

Definition main (args : Args) : M unit :=
  p <- prepare args ;;
  build_all (cpython_repo_dir args) (fst p) ;;
  restore (cpython_repo_dir args) (snd p).

End Script.
End InstallCpython.

(* ====================================================================== *)
(** * Part 3b: notions the statements use                                 *)
(* ====================================================================== *)

(** ** Selection *)

Definition not_dot (c : ascii) : bool := negb (Ascii.eqb c ".").

Section SelectionNotions.
Context {sv : SemVer}.

(** The version a tag stands for: the tag without one leading [v], parsed. *)
Definition tag_version (version_tag : string) : option Version :=
  match version_tag with
  | EmptyString => Version_parse EmptyString
  | String c rest =>
      if Ascii.eqb c "v" then Version_parse rest else Version_parse version_tag
  end.

(** The tags that parse, with their versions, in the order of the list. *)
Fixpoint parsed_tags (tags : list string) : list (string * Version) :=
  match tags with
  | [] => []
  | t :: rest =>
      match tag_version t with
      | Some v => (t, v) :: parsed_tags rest
      | None => parsed_tags rest
      end
  end.

(** A minor line: the releases with the same [major] and [minor]. *)
Definition same_minor_line (v w : Version) : Prop :=
  major v = major w /\ minor v = minor w.

(** The members of one minor line, by its dict key. *)
Definition group (k : string) (versions : list (string * Version))
  : list (string * Version) :=
  filter (fun x => String.eqb (minor_key (snd x)) k) versions.

Definition first_max (l : list (string * Version))
  : option (string * Version) :=
  match l with
  | [] => None
  | x :: rest => Some (max_from x rest)
  end.

(** The keys of a list of versions, each once, in the order they first
    appear. *)
Definition add_key (ks : list string) (k : string) : list string :=
  if existsb (String.eqb k) ks then ks else ks ++ [k].

Fixpoint keys_from (versions : list (string * Version)) (ks : list string)
  : list string :=
  match versions with
  | [] => ks
  | (_, version) :: rest => keys_from rest (add_key ks (minor_key version))
  end.

(** A bound given on the command line holds of [v]; an absent bound holds
    of every version, an unparseable one of none. *)
Definition meets (keep : Version -> Version -> bool) (bound : option string)
           (v : Version) : Prop :=
  match bound with
  | None => True
  | Some s => exists b, Version_parse s = Some b /\ keep v b = true
  end.

(** The groups after some versions were appended. *)
Definition extend (d : dict (list (string * Version)))
           (vs : list (string * Version)) : dict (list (string * Version)) :=
  map (fun item => (fst item, snd item ++ group (fst item) vs)) d.

End SelectionNotions.

(** [a] comes before [b] in [l]. *)
Definition before {A : Type} (a b : A) (l : list A) : Prop :=
  exists l1 l2, l = l1 ++ a :: l2 /\ In b l2.

(** [y] is strictly below [x], resp. not above [x], in precedence. *)
Definition below (x y : string * Version) : Prop :=
  Version_compare (snd y) (snd x) = Lt.

Definition not_above (x y : string * Version) : Prop :=
  Version_compare (snd y) (snd x) <> Gt.

(** [out] holds, for each key of [vs] in order of first appearance, the
    [max] of the key's group. *)
Definition latest_of (vs out : list (string * Version)) : Prop :=
  Forall2 (fun k x => first_max (group k vs) = Some x) (keys_from vs []) out.

Section ClaimNotions.
Context {sv : SemVer}.

(** The minor line of a selected entry. *)
Definition line (x : string * Version) : N * N :=
  (major (snd x), minor (snd x)).

(** No parseable tag of the list, on the minor line of [v], has a version
    above [v]. *)
Definition greatest_of_line (tags : list string) (v : Version) : Prop :=
  forall t' v', In t' tags -> tag_version t' = Some v' ->
                same_minor_line v' v -> Version_le v' v = true.

(** A bound given on the command line parses (an absent one counts). *)
Definition bound_parses (bound : option string) : Prop :=
  match bound with
  | None => True
  | Some s => exists b, Version_parse s = Some b
  end.

(** Every minor line with a parseable tag within the bounds has an entry in
    [out]. *)
Definition every_line_in_bounds_selected (minimum maximum : option string)
           (tags : list string) (out : list (string * Version)) : Prop :=
  forall t v,
    In t tags -> tag_version t = Some v ->
    meets Version_ge minimum v -> meets Version_le maximum v ->
    exists x, In x out /\ same_minor_line (snd x) v.

(** The tags of [order] come in descending order of their versions. *)
Definition descending_by_version (order : list string) : Prop :=
  forall a b va vb,
    In a order -> In b order ->
    tag_version a = Some va -> tag_version b = Some vb ->
    Version_gt va vb = true -> before a b order.

End ClaimNotions.

(** ** Whitespace and distro detection *)

Definition not_space (c : ascii) : bool := negb (is_space c).

(** No whitespace character starts within [tok] when [tok] is followed by
    [s]: what [split] knows of the piece [tok] it is reading when [s] is
    still to read. *)
Fixpoint run_before (tok s : string) : Prop :=
  match tok with
  | EmptyString => True
  | String _ tok' => space_width (tok ++ s) = 0 /\ run_before tok' s
  end.

(** An [/etc/os-release] that does not name exactly one [ID_LIKE=] value, or
    names one outside the [DistroLike] enum. *)
Definition unsupported_os_release (content : string) : Prop :=
  List.length (InstallCpython.id_like_values content) <> 1
  \/ exists v, InstallCpython.id_like_values content = [v]
               /\ v <> "debian" /\ v <> "rhel fedora".

(** ** The shape of a build sequence and of its trace *)

(** One step of a sequence: a progress line or a command. *)
Inductive action : Type :=
| Say (msg : string)
| Run (cmd : string).

Section Traces.
Context {O : Outside}.

Fixpoint run_actions (cwd : option string) (actions : list action) : M unit :=
  match actions with
  | [] => ret tt
  | Say msg :: rest =>
      bindM (print stdout msg) (fun _ => run_actions cwd rest)
  | Run cmd :: rest =>
      bindM (safe_run_process cmd cwd) (fun _ => run_actions cwd rest)
  end.

(** What [safe_run_process cmd cwd] does in the world [w]: the events it
    logs, how it ends, and the world it leaves.
    - The program exits with 0: nothing is printed.
    - It exits with another status and its output decodes: the status, the
      output and the error output are printed, then [OSError] is raised.
    - It exits with another status and its output, or its error output, does
      not decode: what comes before the failed [decode()] is printed and
      [UnicodeDecodeError] is raised.
    - It cannot be started. *)
Inductive ran (cwd : option string) (cmd : string) (w : World)
  : list event -> result unit -> World -> Prop :=
| ran_ok w' proc :
    spawn w (split cmd) cwd = (w', Some proc) ->
    returncode proc = 0%Z ->
    ran cwd cmd w [Exec (split cmd) cwd (Some proc)] (OK tt) w'
| ran_failed w' proc out_text err_text :
    spawn w (split cmd) cwd = (w', Some proc) ->
    returncode proc <> 0%Z ->
    decode (out proc) = OK out_text ->
    decode (err proc) = OK err_text ->
    ran cwd cmd w
        [Exec (split cmd) cwd (Some proc);
         Print stdout (str_of_Z (returncode proc));
         Print stdout out_text;
         Print stderr err_text]
        (Raise OSError) w'
| ran_garbled_out w' proc :
    spawn w (split cmd) cwd = (w', Some proc) ->
    returncode proc <> 0%Z ->
    decode (out proc) = Raise UnicodeDecodeError ->
    ran cwd cmd w
        [Exec (split cmd) cwd (Some proc);
         Print stdout (str_of_Z (returncode proc))]
        (Raise UnicodeDecodeError) w'
| ran_garbled_err w' proc out_text :
    spawn w (split cmd) cwd = (w', Some proc) ->
    returncode proc <> 0%Z ->
    decode (out proc) = OK out_text ->
    decode (err proc) = Raise UnicodeDecodeError ->
    ran cwd cmd w
        [Exec (split cmd) cwd (Some proc);
         Print stdout (str_of_Z (returncode proc));
         Print stdout out_text]
        (Raise UnicodeDecodeError) w'
| ran_not_started w' :
    spawn w (split cmd) cwd = (w', None) ->
    ran cwd cmd w [Exec (split cmd) cwd None] (Raise FileNotFoundError) w'.








End Traces.

(** The build sequences of the two scripts. *)
Definition cpython_steps (version_tag : string) : list action :=
  [Say (">>> Getting " ++ version_tag);
   Run "git add -A";
   Run "git reset --hard";
   Run ("git checkout " ++ version_tag);
   Say (">>> Configuring " ++ version_tag);
   Run "./configure --enable-optimizations";
   Say (">>> Cleaning " ++ version_tag);
   Run "make clean";
   Say (">>> Making " ++ version_tag);
   Run "make -j";
   Say (">>> Installing " ++ version_tag);
   Run "make altinstall"].

Definition allminor_steps (version_tag : string) : list action :=
  [Say (">>> Getting " ++ version_tag);
   Run "git add -A";
   Run "git reset --hard";
   Run ("git checkout " ++ version_tag);
   Say (">>> Configuring " ++ version_tag);
   Run "./configure";
   Say (">>> Cleaning " ++ version_tag);
   Run "make clean";
   Say (">>> Making " ++ version_tag);
   Run "make";
   Say (">>> Installing " ++ version_tag);
   Run "make altinstall"].

(** ** Runs *)

Section RunNotions.
Context {O : Outside}.

(** What the first part of a [__main__] can have done, started in [st]:
    - it launched [git tag] and stopped there (the listing failed or did not
      decode, or the selection raised);
    - it launched [git tag], then [git rev-parse HEAD], and stopped there;
    - it launched the two, [git rev-parse HEAD] exited with 0, its output
      decoded to [text], and the part returned the tags with the ref
      [text.strip()].
    The world it leaves is the one the last launch left: no other process
    was started. *)
Definition recorded (repo : string) (st : state)
           (r : state * result (list string * string)) : Prop :=
  let git_tag := split "git tag" in
  let rev_parse := split "git rev-parse HEAD" in
  (exists w o e,
      spawn (world st) git_tag (Some repo) = (w, o)
      /\ r = (mkState w (log st ++ [Exec git_tag (Some repo) o]), Raise e))
  \/ (exists w1 p1 w o2 e,
         spawn (world st) git_tag (Some repo) = (w1, Some p1)
         /\ spawn w1 rev_parse (Some repo) = (w, o2)
         /\ r = (mkState w (log st ++ [Exec git_tag (Some repo) (Some p1);
                                       Exec rev_parse (Some repo) o2]),
                 Raise e))
  \/ (exists w1 p1 w p2 text tags,
         spawn (world st) git_tag (Some repo) = (w1, Some p1)
         /\ spawn w1 rev_parse (Some repo) = (w, Some p2)
         /\ returncode p2 = 0%Z
         /\ decode (out p2) = OK text
         /\ r = (mkState w (log st ++ [Exec git_tag (Some repo) (Some p1);
                                       Exec rev_parse (Some repo) (Some p2);
                                       Print stdout (">>> Initial ref: "
                                                     ++ strip text)]),
                 OK (tags, strip text))).

(** How a run of [install_cpython.py] that ends before the loop, in the
    state [st'] and with the exception [e], can have gone when the distro is
    not supported: it stopped at the tag listing; or at the recording of the
    ref; or, with [ValueError], after the two progress lines that precede
    the distro detection.  In each case the only processes launched are
    [git tag] and [git rev-parse HEAD]. *)
Definition stopped_in_setup (repo : string) (st st' : state) (e : exn)
  : Prop :=
  let git_tag := split "git tag" in
  let rev_parse := split "git rev-parse HEAD" in
  (exists o,
      spawn (world st) git_tag (Some repo) = (world st', o)
      /\ log st' = log st ++ [Exec git_tag (Some repo) o])
  \/ (exists w1 p1 o2,
         spawn (world st) git_tag (Some repo) = (w1, Some p1)
         /\ spawn w1 rev_parse (Some repo) = (world st', o2)
         /\ log st' = log st ++ [Exec git_tag (Some repo) (Some p1);
                                 Exec rev_parse (Some repo) o2])
  \/ (exists w1 p1 p2 text msg,
         spawn (world st) git_tag (Some repo) = (w1, Some p1)
         /\ spawn w1 rev_parse (Some repo) = (world st', Some p2)
         /\ decode (out p2) = OK text
         /\ log st' = log st ++ [Exec git_tag (Some repo) (Some p1);
                                 Exec rev_parse (Some repo) (Some p2);
                                 Print stdout (">>> Initial ref: "
                                               ++ strip text);
                                 Print stdout ">>> Installing system dependencies"]
         /\ e = ValueError msg).




End RunNotions.

(* ====================================================================== *)
(** * Part 3c: concrete inputs for the examples                           *)
(* ====================================================================== *)

Definition example_tags : list string :=
  ["v3.9.0"; "v3.10.0"; "v3.9.1"; "v3.10.0a1"; "3.9.1"; "junk"; "v2.7.18";
   "v3.10.2"].

Definition release (ma mi pa : N) : Version := mkVersion ma mi pa [] [].

Definition example_latest : list (string * Version) :=
  [("v3.9.1", release 3 9 1); ("v3.10.2", release 3 10 2);
   ("v2.7.18", release 2 7 18)].

(** The line feed. *)
Definition nl : string := String "010" EmptyString.

(** The double quote. *)
Definition quote : string := String "034" EmptyString.

(** The no-break space U+00A0 and the line separator U+2028, in UTF-8. *)
Definition no_break_space : string := bytes [194; 160]%N.

Definition line_separator : string := bytes [226; 128; 168]%N.

(** The file of a CentOS system, and that of an Ubuntu system. *)
Definition centos_os_release : string :=
  "NAME=CentOS" ++ nl ++ "ID=centos" ++ nl
  ++ "ID_LIKE=" ++ quote ++ "rhel fedora" ++ quote ++ nl.

Definition debian_os_release : string :=
  "NAME=Ubuntu" ++ nl ++ "ID=ubuntu" ++ nl ++ "ID_LIKE=debian" ++ nl.

(** ** A concrete machine *)

Fixpoint argv_eqb (a b : list string) : bool :=
  match a, b with
  | [], [] => true
  | x :: a', y :: b' => String.eqb x y && argv_eqb a' b'
  | _, _ => false
  end.

Definition succeeded (output : string) : completed :=
  {| returncode := 0; out := output; err := EmptyString |}.

Definition failed : completed :=
  {| returncode := 1; out := "some output"; err := "some error" |}.

(** A process that exits with status 1 having written the two bytes
    [ff fe], which are not UTF-8. *)
Definition garbled : completed :=
  {| returncode := 1; out := bytes [255; 254]%N; err := EmptyString |}.

(** A machine whose repository lists the tags [tag_list] and is at the ref
    [0123abc], whose [/etc/os-release] is [os], and on which exactly the
    command lines in [failing] fail, as [failure] says. *)
Definition machine_with (failure : completed) (tag_list os : string)
           (failing : list (list string)) : Outside := {|
  World := unit;
  spawn := fun w argv cwd =>
    (w, Some (if existsb (argv_eqb argv) failing then failure
              else if argv_eqb argv ["git"; "tag"] then succeeded tag_list
              else if argv_eqb argv ["git"; "rev-parse"; "HEAD"]
                   then succeeded ("0123abc" ++ nl)
              else succeeded EmptyString));
  os_release := fun _ => Content os
|}.

(** The same, the failing command lines exiting with status 1 and some
    text. *)
Definition machine : string -> string -> list (list string) -> Outside :=
  machine_with failed.

Definition two_tags : string := "v3.9.0" ++ nl ++ "v3.10.0" ++ nl.

(** The machine before the run: nothing logged yet. *)
Definition boot_with (failure : completed) (tag_list os : string)
           (failing : list (list string))
  : @state (machine_with failure tag_list os failing) :=
  @mkState (machine_with failure tag_list os failing) tt [].

Definition boot (tag_list os : string) (failing : list (list string))
  : @state (machine tag_list os failing) :=
  boot_with failed tag_list os failing.

(** The progress lines [>>> Getting ...] of a log, in order. *)
Definition getting_lines {O : Outside} (l : list event) : list string :=
  flat_map (fun e => match e with
                     | Print stdout text =>
                         if String.prefix ">>> Getting " text then [text] else []
                     | _ => []
                     end) l.

Definition cpython_args (do_pull : bool) : InstallCpython.Args :=
  {| InstallCpython.cpython_repo_dir := "/src/cpython";
     InstallCpython.minimum_python_version := Some "3.0.0";
     InstallCpython.maximum_python_version := None;
     InstallCpython.pull := do_pull |}.

Definition allminor_args (do_pull : bool) : InstallAllMinorVersions.Args :=
  {| InstallAllMinorVersions.cpython_repo_dir := "/src/cpython";
     InstallAllMinorVersions.minimum_python_version := "3.0.0";
     InstallAllMinorVersions.pull := do_pull |}.

(* ====================================================================== *)
(** * Part 3d: notions of the further properties                          *)
(* ====================================================================== *)

(** The exceptions a run can end with: every one of [exn] but [IndexError]
    and [KeyError]. *)
Definition run_exception (e : exn) : bool :=
  match e with
  | IndexError | KeyError => false
  | ValueError _ | OSError | CalledProcessError _ | FileNotFoundError => true
  end.


(** The commands of a build sequence. *)
Fixpoint commands_of_actions (actions : list action) : list string :=
  match actions with
  | [] => []
  | Say _ :: rest => commands_of_actions rest
  | Run cmd :: rest => cmd :: commands_of_actions rest
  end.

Section FurtherNotions.
Context {O : Outside}.

(** Whatever [m] raises satisfies [P]. *)
Definition raises_among {A : Type} (P : exn -> bool) (m : M A) : Prop :=
  forall st e, snd (m st) = Raise e -> P e = true.

(** Whatever [m] returns satisfies [Q]. *)
Definition returns_with {A : Type} (Q : A -> Prop) (m : M A) : Prop :=
  forall st st' a, m st = (st', OK a) -> Q a.

(** [m] returns, from every state. *)
Definition succeeds {A : Type} (m : M A) : Prop :=
  forall st, exists st' a, m st = (st', OK a).

(** A machine on which every program starts and exits with status 0. *)
Definition every_command_succeeds : Prop :=
  forall w argv cwd,
    exists w' proc, spawn w argv cwd = (w', Some proc)
                    /\ returncode proc = 0%Z.

(** A machine on which what a program writes to its standard output is
    text. *)
Definition every_output_is_text : Prop :=
  forall w argv cwd w' proc,
    spawn w argv cwd = (w', Some proc) ->
    exists text, decode (out proc) = OK text.

(** The argument vectors of the commands of a log, in order. *)
Fixpoint commands_run (l : list event) : list (list string) :=
  match l with
  | [] => []
  | Exec argv _ _ :: rest => argv :: commands_run rest
  | Print _ _ :: rest => commands_run rest
  end.

(** A run that recorded the ref [ref] and ended with [UnicodeDecodeError]
    in the build sequence of [tag], the first it started, at the command
    [argv], without ever launching the checkout of [ref]. *)
Definition left_unrestored (ref tag : string) (argv : list string)
           (r : state * result unit) : Prop :=
  snd r = Raise UnicodeDecodeError
  /\ In (Print stdout (">>> Initial ref: " ++ ref)) (log (fst r))
  /\ getting_lines (log (fst r)) = [(">>> Getting " ++ tag)%string]
  /\ last (commands_run (log (fst r))) [] = argv
  /\ ~ In (split ("git checkout " ++ ref)) (commands_run (log (fst r))).

End FurtherNotions.

(* ====================================================================== *)
(** * Part 4: lemmas and theorems                                         *)
(* ====================================================================== *)

(** ** The model at work *)

Example parse_release : semver_parse "3.9.1" = Some (release 3 9 1).
Proof. reflexivity. Qed.

Example parse_prerelease :
  semver_parse "3.10.0-rc.1+build.7"
  = Some (mkVersion 3 10 0 ["rc"; "1"] ["build"; "7"]).
Proof. reflexivity. Qed.

Example parse_alpha_tag : semver_parse "3.10.0a1" = None.
Proof. reflexivity. Qed.

Example parse_leading_zero : semver_parse "3.09.1" = None.
Proof. reflexivity. Qed.

Example release_above_prerelease :
  Version_compare (release 3 10 0) (mkVersion 3 10 0 ["rc"; "1"] []) = Gt.
Proof. reflexivity. Qed.

Example numeric_identifiers_by_value :
  Version_compare (mkVersion 1 0 0 ["rc"; "2"] [])
                  (mkVersion 1 0 0 ["rc"; "10"] []) = Lt.
Proof. reflexivity. Qed.

Example build_is_ignored :
  Version_compare (mkVersion 1 0 0 [] ["a"]) (mkVersion 1 0 0 [] ["b"]) = Eq.
Proof. reflexivity. Qed.

Example parse_before_line_feed :
  semver_parse ("3.9.1" ++ nl) = Some (release 3 9 1).
Proof. reflexivity. Qed.

Example decode_text : decode two_tags = OK two_tags.
Proof. reflexivity. Qed.

Example decode_not_utf8 : decode (out garbled) = Raise UnicodeDecodeError.
Proof. reflexivity. Qed.

(** An overlong form and a surrogate are not UTF-8 either. *)
Example decode_overlong : decode (bytes [192; 128]%N) = Raise UnicodeDecodeError.
Proof. reflexivity. Qed.

Example decode_surrogate :
  decode (bytes [237; 160; 128]%N) = Raise UnicodeDecodeError.
Proof. reflexivity. Qed.

Example split_tags : split two_tags = ["v3.9.0"; "v3.10.0"].
Proof. reflexivity. Qed.

Example split_at_unicode_spaces :
  split ("v3.8.1" ++ no_break_space ++ "x" ++ nl
         ++ "v3.7.0" ++ line_separator ++ "y" ++ nl)
  = ["v3.8.1"; "x"; "v3.7.0"; "y"].
Proof. vm_compute. reflexivity. Qed.

Example strip_ref : strip ("0123abc" ++ nl) = "0123abc".
Proof. reflexivity. Qed.

Example strip_unicode_spaces :
  strip (no_break_space ++ " 0123 abc" ++ nl ++ line_separator) = "0123 abc".
Proof. vm_compute. reflexivity. Qed.

Example sorted_reverse_tags :
  sorted_reverse ["v3.10.2"; "v2.7.18"; "v3.9.1"]
  = ["v3.9.1"; "v3.10.2"; "v2.7.18"].
Proof. reflexivity. Qed.

Example latest_of_example_tags :
  InstallCpython.get_latest_minor_versions (sv := semver) example_tags
  = OK example_latest.
Proof. vm_compute. reflexivity. Qed.

Example first_of_equal_versions_wins :
  InstallCpython.get_latest_minor_versions (sv := semver)
    ["3.9.1"; "v3.9.1"; "v3.9.0"]
  = OK [("3.9.1", release 3 9 1)].
Proof. vm_compute. reflexivity. Qed.

Example detect_debian :
  InstallCpython.detect_distro_like debian_os_release = OK InstallCpython.Debian.
Proof. reflexivity. Qed.

Example detect_debian_before_no_break_space :
  InstallCpython.detect_distro_like ("ID_LIKE=debian" ++ no_break_space)
  = OK InstallCpython.Debian.
Proof. vm_compute. reflexivity. Qed.

Example detect_two_values :
  InstallCpython.detect_distro_like
    ("X" ++ no_break_space ++ "ID_LIKE=foo" ++ nl ++ "ID_LIKE=debian")
  = Raise (ValueError "Unexpected format of /etc/os-release").
Proof. vm_compute. reflexivity. Qed.

Example failed_build_is_skipped :
  getting_lines
    (log (fst (InstallCpython.main (sv := semver) (cpython_args false)
                 (boot two_tags debian_os_release [["make"; "clean"]]))))
  = [">>> Getting v3.9.0"; ">>> Getting v3.10.0"]
  /\ snd (InstallCpython.main (sv := semver) (cpython_args false)
             (boot two_tags debian_os_release [["make"; "clean"]]))
     = OK tt.
Proof. split; vm_compute; reflexivity. Qed.

(** ** The comparison is a total preorder *)

Section Preorder.
Variable A : Type.
Variable cmp : A -> A -> comparison.
Hypothesis P : total_preorder cmp.

Lemma cmp_refl x : cmp x x = Eq.
Proof.
  pose proof (cmp_opp P x x) as H. destruct (cmp x x); simpl in H; congruence.
Qed.

Lemma cmp_eq_r x y z : cmp y z = Eq -> cmp x y = cmp x z.
Proof.
  intros H.
  assert (Hzy : cmp z y = Eq) by (rewrite (cmp_opp P y z), H; reflexivity).
  pose proof (cmp_eq_l P z y x Hzy) as E.
  rewrite (cmp_opp P x z), (cmp_opp P x y) in E.
  destruct (cmp x y), (cmp x z); simpl in E; congruence.
Qed.

Lemma cmp_gt_trans x y z : cmp x y = Gt -> cmp y z = Gt -> cmp x z = Gt.
Proof.
  intros H1 H2.
  assert (Hzy : cmp z y = Lt) by (rewrite (cmp_opp P y z), H2; reflexivity).
  assert (Hyx : cmp y x = Lt) by (rewrite (cmp_opp P x y), H1; reflexivity).
  rewrite (cmp_opp P z x), (cmp_lt_trans P z y x Hzy Hyx). reflexivity.
Qed.

(** [x <= y] and [y <= z] give [x <= z], with [<=] read as "not [Gt]". *)
Lemma cmp_le_trans x y z : cmp x y <> Gt -> cmp y z <> Gt -> cmp x z <> Gt.
Proof.
  intros H1 H2 H3.
  destruct (cmp x y) eqn:E1; [ | | congruence ].
  - rewrite (cmp_eq_l P x y z E1) in H3. congruence.
  - destruct (cmp y z) eqn:E2; [ | | congruence ].
    + rewrite <- (cmp_eq_r x y z E2) in H3. congruence.
    + rewrite (cmp_lt_trans P x y z E1 E2) in H3. congruence.
Qed.
End Preorder.

Arguments cmp_refl {A cmp} _ x.
Arguments cmp_eq_r {A cmp} _ x y z _.
Arguments cmp_gt_trans {A cmp} _ x y z _ _.
Arguments cmp_le_trans {A cmp} _ x y z _ _.

Lemma lex_opp c d : CompOpp (lex c d) = lex (CompOpp c) (CompOpp d).
Proof. destruct c; reflexivity. Qed.

(** The lexicographic chaining of two total preorders, read through
    projections [f] and [g], is a total preorder. *)
Lemma lex_total_preorder {A B C : Type} (f : C -> A) (g : C -> B)
      {ca : A -> A -> comparison} {cb : B -> B -> comparison} :
  total_preorder ca -> total_preorder cb ->
  total_preorder (fun x y => lex (ca (f x) (f y)) (cb (g x) (g y))).
Proof.
  intros Pa Pb. split.
  - intros x y. rewrite lex_opp, <- (cmp_opp Pa), <- (cmp_opp Pb). reflexivity.
  - intros x y z H1 H2.
    destruct (ca (f x) (f y)) eqn:E1; simpl in H1; try discriminate.
    + rewrite (cmp_eq_l Pa _ _ (f z) E1).
      destruct (ca (f y) (f z)) eqn:E2; simpl in *; try discriminate; auto.
      apply (cmp_lt_trans Pb _ _ _ H1 H2).
    + destruct (ca (f y) (f z)) eqn:E2; simpl in H2; try discriminate.
      * rewrite <- (cmp_eq_r Pa (f x) _ _ E2), E1. reflexivity.
      * rewrite (cmp_lt_trans Pa _ _ _ E1 E2). reflexivity.
  - intros x y z H.
    destruct (ca (f x) (f y)) eqn:E1; simpl in H; try discriminate.
    rewrite (cmp_eq_l Pa _ _ (f z) E1), (cmp_eq_l Pb _ _ (g z) H). reflexivity.
Qed.

Lemma N_compare_preorder : total_preorder N.compare.
Proof.
  split.
  - intros x y. apply N.compare_antisym.
  - intros x y z. rewrite !N.compare_lt_iff. lia.
  - intros x y z H. apply N.compare_eq in H. subst. reflexivity.
Qed.

Lemma ascii_compare_preorder : total_preorder Ascii.compare.
Proof.
  unfold Ascii.compare. split.
  - intros x y. apply N.compare_antisym.
  - intros x y z. rewrite !N.compare_lt_iff. lia.
  - intros x y z H. apply N.compare_eq in H. rewrite H. reflexivity.
Qed.

Lemma string_compare_cons a s b t :
  String.compare (String a s) (String b t)
  = lex (Ascii.compare a b) (String.compare s t).
Proof. simpl. destruct (Ascii.compare a b); reflexivity. Qed.

Lemma string_compare_preorder : total_preorder String.compare.
Proof.
  pose proof ascii_compare_preorder as Pa.
  split.
  - intros x y. apply String.compare_antisym.
  - induction x as [|a x IH]; intros [|b y] [|c z] H1 H2;
      try discriminate; try reflexivity.
    rewrite string_compare_cons in *.
    destruct (Ascii.compare a b) eqn:E1; simpl in H1; try discriminate.
    + rewrite (cmp_eq_l Pa _ _ c E1).
      destruct (Ascii.compare b c) eqn:E2; simpl in *; try discriminate; eauto.
    + destruct (Ascii.compare b c) eqn:E2; simpl in H2; try discriminate.
      * rewrite <- (cmp_eq_r Pa a _ _ E2), E1. reflexivity.
      * rewrite (cmp_lt_trans Pa _ _ _ E1 E2). reflexivity.
  - intros x y z H. apply String.compare_eq_iff in H. subst. reflexivity.
Qed.

Lemma identifier_compare_preorder : total_preorder identifier_compare.
Proof.
  pose proof N_compare_preorder as Pn.
  pose proof string_compare_preorder as Ps.
  split.
  - intros [x|x|] [y|y|]; simpl; try reflexivity.
    + apply (cmp_opp Pn).
    + apply (cmp_opp Ps).
  - intros [x|x|] [y|y|] [z|z|]; simpl; try discriminate; try reflexivity.
    + apply (cmp_lt_trans Pn).
    + apply (cmp_lt_trans Ps).
  - intros [x|x|] [y|y|] [z|z|]; simpl; try discriminate; try reflexivity.
    + apply (cmp_eq_l Pn).
    + apply (cmp_eq_l Ps).
Qed.

Lemma tuple_compare_preorder : total_preorder tuple_compare.
Proof.
  pose proof identifier_compare_preorder as Pi.
  split.
  - induction x as [|a x IH]; intros [|b y]; simpl; try reflexivity.
    rewrite lex_opp, <- (cmp_opp Pi), <- IH. reflexivity.
  - induction x as [|a x IH]; intros [|b y] [|c z] H1 H2;
      simpl in *; try discriminate; try reflexivity.
    destruct (identifier_compare a b) eqn:E1; simpl in H1; try discriminate.
    + rewrite (cmp_eq_l Pi _ _ c E1).
      destruct (identifier_compare b c) eqn:E2; simpl in *;
        try discriminate; eauto.
    + destruct (identifier_compare b c) eqn:E2; simpl in H2; try discriminate.
      * rewrite <- (cmp_eq_r Pi a _ _ E2), E1. reflexivity.
      * rewrite (cmp_lt_trans Pi _ _ _ E1 E2). reflexivity.
  - induction x as [|a x IH]; intros [|b y] [|c z] H;
      simpl in *; try discriminate; try reflexivity.
    destruct (identifier_compare a b) eqn:E1; simpl in H; try discriminate.
    rewrite (cmp_eq_l Pi _ _ c E1), (IH _ z H). reflexivity.
Qed.

Lemma Version_compare_preorder : total_preorder Version_compare.
Proof.
  pose proof (lex_total_preorder patch
                (fun v => prerelease_key (prerelease v))
                N_compare_preorder tuple_compare_preorder) as P3.
  pose proof (lex_total_preorder minor (fun v => v) N_compare_preorder P3)
    as P2.
  exact (lex_total_preorder major (fun v => v) N_compare_preorder P2).
Qed.

(** ** Strings *)

Lemma string_of_uint_not_dot d :
  all_chars not_dot (NilEmpty.string_of_uint d) = true.
Proof. induction d; simpl; auto. Qed.

Lemma append_dot_inj (s1 s2 t1 t2 : string) :
  all_chars not_dot s1 = true -> all_chars not_dot s2 = true ->
  (s1 ++ "." ++ t1 = s2 ++ "." ++ t2)%string -> s1 = s2 /\ t1 = t2.
Proof.
  revert s2. induction s1 as [|a s1 IH]; intros [|b s2] H1 H2 E; simpl in *.
  - injection E as E. auto.
  - injection E as Ea E. subst b. discriminate.
  - injection E as Ea E. subst a. discriminate.
  - injection E as Ea E. subst b.
    apply andb_true_iff in H1 as [_ H1]. apply andb_true_iff in H2 as [_ H2].
    destruct (IH s2 H1 H2 E) as [-> ->]. auto.
Qed.

Lemma str_of_N_inj n m : str_of_N n = str_of_N m -> n = m.
Proof.
  unfold str_of_N. intros E.
  apply DecimalN.Unsigned.to_uint_inj.
  pose proof (NilEmpty.usu (N.to_uint n)) as Hn.
  pose proof (NilEmpty.usu (N.to_uint m)) as Hm.
  rewrite E in Hn. congruence.
Qed.

(** The dict key names the minor line: two versions have the same key
    exactly when they agree on [major] and [minor]. *)
Lemma minor_key_inj v w :
  minor_key v = minor_key w <-> major v = major w /\ minor v = minor w.
Proof.
  unfold minor_key. split.
  - intros E.
    apply append_dot_inj in E; try apply string_of_uint_not_dot.
    destruct E as [E1 E2]. split; apply str_of_N_inj; assumption.
  - intros [-> ->]. reflexivity.
Qed.

(** ** Parsing the tags *)

Section SelectionLemmas.
Context {sv : SemVer}.

Lemma safe_parse_version_spec s :
  safe_parse_version s = OK (Version_parse s).
Proof.
  unfold safe_parse_version, Version_init.
  destruct (Version_parse s); reflexivity.
Qed.

Lemma normalize_version_spec t :
  normalize_version t =
  if nonempty t then OK (t, tag_version t) else Raise IndexError.
Proof.
  destruct t as [|c r]; simpl; [reflexivity|].
  rewrite !safe_parse_version_spec.
  destruct (Ascii.eqb c "v"); reflexivity.
Qed.

Lemma comprehension_normalize tags :
  comprehension normalize_version tags =
  if forallb nonempty tags
  then OK (map (fun t => (t, tag_version t)) tags)
  else Raise IndexError.
Proof.
  induction tags as [|t tags IH]; simpl; [reflexivity|].
  rewrite normalize_version_spec.
  destruct (nonempty t); simpl; [|reflexivity].
  rewrite IH. destruct (forallb nonempty tags); reflexivity.
Qed.

Lemma drop_unparsed_map tags :
  drop_unparsed (map (fun t => (t, tag_version t)) tags) = parsed_tags tags.
Proof.
  induction tags as [|t tags IH]; simpl; [reflexivity|].
  destruct (tag_version t); rewrite IH; reflexivity.
Qed.

Lemma in_parsed_tags tags t v :
  In (t, v) (parsed_tags tags) <-> In t tags /\ tag_version t = Some v.
Proof.
  induction tags as [|a tags IH]; simpl; [tauto|].
  destruct (tag_version a) eqn:E; simpl; rewrite IH; split.
  - intros [H|[H1 H2]]; [injection H as -> ->; auto | auto].
  - intros [[->|H1] H2]; [left; congruence | auto].
  - intros [H1 H2]; auto.
  - intros [[->|H1] H2]; [congruence | auto].
Qed.

(** ** The dict of groups *)

Lemma in_add_key ks k k' : In k' (add_key ks k) <-> In k' ks \/ k' = k.
Proof.
  unfold add_key. destruct (existsb (String.eqb k) ks) eqn:E.
  - apply existsb_exists in E as (x & Hx & Ex).
    apply String.eqb_eq in Ex. subst x. split; [auto|].
    intros [H| ->]; assumption.
  - rewrite in_app_iff. simpl. intuition.
Qed.

Lemma NoDup_add_key ks k : NoDup ks -> NoDup (add_key ks k).
Proof.
  intros H. unfold add_key. destruct (existsb (String.eqb k) ks) eqn:E; [assumption|].
  apply NoDup_app; [assumption | repeat constructor; simpl; tauto |].
  intros x Hx [->|[]].
  assert (existsb (String.eqb x) ks = true) as C; [|congruence].
  apply existsb_exists. exists x. split; [assumption | apply String.eqb_refl].
Qed.

Lemma in_keys_from vs : forall ks k,
  In k (keys_from vs ks) <->
  In k ks \/ exists x, In x vs /\ minor_key (snd x) = k.
Proof.
  induction vs as [|[t v] vs IH]; intros ks k; simpl.
  - split; [auto | intros [H|(x & [] & _)]; assumption].
  - rewrite IH, in_add_key. split.
    + intros [[H| ->]|(x & Hx & E)]; [auto| |].
      * right. exists (t, v). auto.
      * right. exists x. auto.
    + intros [H|(x & [<-|Hx] & E)]; [auto| |].
      * left. right. symmetry. exact E.
      * right. exists x. auto.
Qed.

Lemma NoDup_keys_from vs : forall ks, NoDup ks -> NoDup (keys_from vs ks).
Proof.
  induction vs as [|[t v] vs IH]; intros ks H; simpl; [assumption|].
  apply IH, NoDup_add_key, H.
Qed.

Lemma dict_set_empty (ks : list string) k :
  dict_set (map (fun k => (k, @nil (string * Version))) ks) k []
  = map (fun k => (k, [])) (add_key ks k).
Proof.
  unfold add_key. induction ks as [|a ks IH]; simpl; [reflexivity|].
  rewrite (String.eqb_sym k a).
  destruct (String.eqb a k) eqn:E; simpl; [reflexivity|].
  rewrite IH. destruct (existsb (String.eqb k) ks); reflexivity.
Qed.

Lemma empty_groups_spec vs : forall ks,
  empty_groups vs (map (fun k => (k, [])) ks)
  = map (fun k => (k, [])) (keys_from vs ks).
Proof.
  induction vs as [|[t v] vs IH]; intros ks; simpl; [reflexivity|].
  rewrite dict_set_empty. apply IH.
Qed.

Lemma keys_extend d vs : map fst (extend d vs) = map fst d.
Proof. unfold extend. rewrite map_map. reflexivity. Qed.

Lemma extend_other d x :
  ~ In (minor_key (snd x)) (map fst d) -> extend d [x] = d.
Proof.
  induction d as [|[k g] d IH]; simpl; intros H; [reflexivity|].
  destruct (String.eqb_spec (minor_key (snd x)) k) as [E|E];
    [exfalso; apply H; left; congruence|].
  rewrite app_nil_r, IH by tauto. reflexivity.
Qed.

Lemma dict_get_set d x :
  NoDup (map fst d) -> In (minor_key (snd x)) (map fst d) ->
  exists g, dict_get d (minor_key (snd x)) = Some g /\
            dict_set d (minor_key (snd x)) (g ++ [x]) = extend d [x].
Proof.
  induction d as [|[k g] d IH]; simpl; intros Hnd Hin; [contradiction|].
  inversion Hnd as [|? ? Hk Hd]; subst.
  rewrite (String.eqb_sym (minor_key (snd x)) k).
  destruct (String.eqb_spec k (minor_key (snd x))) as [E|E].
  - exists g. split; [reflexivity|].
    subst k. rewrite extend_other by assumption. reflexivity.
  - destruct Hin as [Hin|Hin]; [congruence|].
    destruct (IH Hd Hin) as (g' & H1 & H2).
    exists g'. split; [assumption|].
    rewrite H2, app_nil_r. reflexivity.
Qed.

Lemma group_app k l1 l2 : group k (l1 ++ l2) = group k l1 ++ group k l2.
Proof. apply filter_app. Qed.

Lemma extend_extend d l1 l2 : extend (extend d l1) l2 = extend d (l1 ++ l2).
Proof.
  unfold extend. rewrite map_map. apply map_ext. intros [k g]; simpl.
  rewrite group_app, app_assoc. reflexivity.
Qed.

Lemma append_to_groups_spec vs : forall d,
  NoDup (map fst d) ->
  (forall x, In x vs -> In (minor_key (snd x)) (map fst d)) ->
  append_to_groups vs d = OK (extend d vs).
Proof.
  induction vs as [|[t v] vs IH]; intros d Hnd Hin; simpl.
  - unfold extend. f_equal. symmetry. rewrite <- (map_id d) at 2.
    apply map_ext. intros [k g]; simpl. rewrite app_nil_r. reflexivity.
  - destruct (dict_get_set d (t, v) Hnd) as (g & H1 & H2).
    { apply (Hin (t, v)). left. reflexivity. }
    simpl in H1, H2. rewrite H1, H2, IH.
    + rewrite extend_extend. reflexivity.
    + rewrite keys_extend. assumption.
    + intros x Hx. rewrite keys_extend. apply Hin. right. assumption.
Qed.

Lemma comprehension_max vs ks :
  (forall k, In k ks -> exists x, In x vs /\ minor_key (snd x) = k) ->
  exists out,
    comprehension (fun item => max_by_version (snd item))
                  (map (fun k => (k, group k vs)) ks) = OK out /\
    Forall2 (fun k x => first_max (group k vs) = Some x) ks out.
Proof.
  induction ks as [|k ks IH]; intros H; simpl.
  - exists []. split; [reflexivity | constructor].
  - destruct IH as (out & E & F); [intros; apply H; right; assumption|].
    rewrite E. destruct (H k) as (x & Hx & Ek); [left; reflexivity|].
    destruct (group k vs) as [|y g] eqn:G.
    + exfalso. assert (In x (group k vs)) as C; [|rewrite G in C; exact C].
      apply filter_In. split; [assumption | apply String.eqb_eq; assumption].
    + simpl. eexists. split; [reflexivity|].
      constructor; [rewrite G; reflexivity | assumption].
Qed.

(** [latest_of_groups] never raises: it returns, for each key in the order
    of first appearance, the [max] of the key's group. *)
Lemma latest_of_groups_spec vs :
  exists out,
    latest_of_groups vs = OK out /\
    Forall2 (fun k x => first_max (group k vs) = Some x) (keys_from vs []) out.
Proof.
  unfold latest_of_groups.
  pose proof (empty_groups_spec vs []) as E0. simpl in E0. rewrite E0.
  rewrite append_to_groups_spec.
  - unfold extend. rewrite map_map. simpl.
    apply comprehension_max. intros k Hk.
    apply in_keys_from in Hk as [[]|Hk]. exact Hk.
  - rewrite map_map. simpl. rewrite map_id. apply NoDup_keys_from. constructor.
  - intros x Hx. rewrite map_map. simpl. rewrite map_id.
    apply in_keys_from. right. exists x. auto.
Qed.

End SelectionLemmas.

(** ** [max] with a key *)

Lemma Version_gt_iff v w : Version_gt v w = true <-> Version_compare v w = Gt.
Proof. unfold Version_gt. destruct (Version_compare v w); split; congruence. Qed.

Lemma Version_le_iff v w : Version_le v w = true <-> Version_compare v w <> Gt.
Proof. unfold Version_le. destruct (Version_compare v w); split; congruence. Qed.

Lemma Version_ge_iff v w : Version_ge v w = true <-> Version_compare v w <> Lt.
Proof. unfold Version_ge. destruct (Version_compare v w); split; congruence. Qed.

Lemma Version_lt_iff v w : Version_lt v w = true <-> Version_compare v w = Lt.
Proof. unfold Version_lt. destruct (Version_compare v w); split; congruence. Qed.

Lemma below_not_above x y : below x y -> not_above x y.
Proof. unfold below, not_above. congruence. Qed.

Lemma below_trans x y z : not_above y z -> below x y -> below x z.
Proof.
  unfold below, not_above. intros H1 H2.
  pose proof Version_compare_preorder as P.
  destruct (Version_compare (snd z) (snd y)) eqn:E; [ | | congruence].
  - rewrite (cmp_eq_l P _ _ _ E). assumption.
  - apply (cmp_lt_trans P _ _ _ E H2).
Qed.

Lemma below_le_trans x y z : below y z -> not_above x y -> below x z.
Proof.
  unfold below, not_above. intros H1 H2.
  pose proof Version_compare_preorder as P.
  destruct (Version_compare (snd y) (snd x)) eqn:E; [ | | congruence].
  - rewrite <- (cmp_eq_r P _ _ _ E). assumption.
  - apply (cmp_lt_trans P _ _ _ H1 E).
Qed.

Lemma not_above_trans x y z : not_above y z -> not_above x y -> not_above x z.
Proof.
  unfold not_above. intros H1 H2.
  apply (cmp_le_trans Version_compare_preorder _ _ _ H1 H2).
Qed.

(** [max] returns the first element that none before it reaches and none
    after it exceeds. *)
Lemma max_from_split rest : forall best,
  exists l1 l2,
    best :: rest = l1 ++ max_from best rest :: l2 /\
    Forall (below (max_from best rest)) l1 /\
    Forall (not_above (max_from best rest)) l2.
Proof.
  induction rest as [|y rest IH]; intros best; simpl.
  - exists [], []. repeat split; constructor.
  - destruct (Version_gt (snd y) (snd best)) eqn:G.
    + apply Version_gt_iff in G.
      destruct (IH y) as (l1 & l2 & E & F1 & F2).
      exists (best :: l1), l2. split; [rewrite E; reflexivity|].
      split; [|assumption]. constructor; [|assumption].
      assert (not_above (max_from y rest) y) as Hy.
      { destruct l1 as [|a l1]; simpl in E; injection E as Ea E.
        - rewrite <- Ea. unfold not_above.
          rewrite (cmp_refl Version_compare_preorder). discriminate.
        - subst a. apply below_not_above. inversion F1; assumption. }
      apply (below_le_trans _ y _); [|exact Hy]. unfold below.
      rewrite (cmp_opp Version_compare_preorder), G. reflexivity.
    + assert (not_above best y) as Hy.
      { unfold not_above. intros C. apply Version_gt_iff in C. congruence. }
      destruct (IH best) as (l1 & l2 & E & F1 & F2).
      remember (max_from best rest) as m eqn:Hm. clear Hm.
      destruct l1 as [|a l1]; simpl in E; injection E as Ea E; subst.
      * exists [], (y :: l2). split; [reflexivity|]. split; constructor; assumption.
      * exists (a :: y :: l1), l2. split; [reflexivity|]. split; [|assumption].
        inversion F1 as [|? ? Hb F1']; subst.
        constructor; [assumption|]. constructor; [|assumption].
        apply (below_trans _ a _); assumption.
Qed.

Lemma max_from_stays x l : Forall (not_above x) l -> max_from x l = x.
Proof.
  induction l as [|y l IH]; simpl; intros F; [reflexivity|].
  inversion F as [|? ? Hy F']; subst.
  destruct (Version_gt (snd y) (snd x)) eqn:G.
  - apply Version_gt_iff in G. contradiction.
  - apply IH, F'.
Qed.

Lemma max_from_reaches x l2 l1 : forall best,
  below x best -> Forall (below x) l1 -> Forall (not_above x) l2 ->
  max_from best (l1 ++ x :: l2) = x.
Proof.
  induction l1 as [|y l1 IH]; intros best Hb F1 F2; simpl.
  - assert (Version_gt (snd x) (snd best) = true) as ->.
    { apply Version_gt_iff. unfold below in Hb.
      rewrite (cmp_opp Version_compare_preorder), Hb. reflexivity. }
    apply max_from_stays, F2.
  - inversion F1 as [|? ? Hy F1']; subst.
    destruct (Version_gt (snd y) (snd best)); apply IH; assumption.
Qed.

Lemma first_max_unique l1 x l2 :
  Forall (below x) l1 -> Forall (not_above x) l2 ->
  first_max (l1 ++ x :: l2) = Some x.
Proof.
  intros F1 F2. destruct l1 as [|y l1]; simpl; f_equal.
  - apply max_from_stays, F2.
  - inversion F1; subst. apply max_from_reaches; assumption.
Qed.

Lemma first_max_split g x :
  first_max g = Some x ->
  exists l1 l2, g = l1 ++ x :: l2 /\
                Forall (below x) l1 /\ Forall (not_above x) l2.
Proof.
  destruct g as [|y g]; simpl; intros E; [discriminate|].
  injection E as <-. apply max_from_split.
Qed.

Lemma first_max_in {g x} : first_max g = Some x -> In x g.
Proof.
  intros E. apply first_max_split in E as (l1 & l2 & -> & _).
  apply in_elt.
Qed.

Lemma first_max_greatest {g x} y :
  first_max g = Some x -> In y g -> Version_le (snd y) (snd x) = true.
Proof.
  intros E Hy. apply first_max_split in E as (l1 & l2 & -> & F1 & F2).
  apply Version_le_iff. rewrite Forall_forall in F1, F2.
  apply in_app_or in Hy as [Hy|[<-|Hy]].
  - apply below_not_above, F1, Hy.
  - rewrite (cmp_refl Version_compare_preorder). discriminate.
  - apply F2, Hy.
Qed.

(** Filtering a list keeps its [max], as long as the [max] itself is kept. *)
Lemma first_max_filter (p : string * Version -> bool) g {x} :
  first_max g = Some x -> p x = true -> first_max (filter p g) = Some x.
Proof.
  intros E Hp. apply first_max_split in E as (l1 & l2 & -> & F1 & F2).
  rewrite filter_app. simpl. rewrite Hp.
  apply first_max_unique.
  - apply Forall_forall. intros y Hy. apply filter_In in Hy as [Hy _].
    rewrite Forall_forall in F1. auto.
  - apply Forall_forall. intros y Hy. apply filter_In in Hy as [Hy _].
    rewrite Forall_forall in F2. auto.
Qed.

(** ** What [latest_of_groups] returns *)

Lemma in_group k vs x :
  In x (group k vs) <-> In x vs /\ minor_key (snd x) = k.
Proof.
  unfold group. rewrite filter_In, String.eqb_eq. reflexivity.
Qed.

Lemma group_filter (p : string * Version -> bool) k vs :
  group k (filter p vs) = filter p (group k vs).
Proof.
  unfold group. induction vs as [|x vs IH]; simpl; [reflexivity|].
  destruct (p x) eqn:Hp, (String.eqb (minor_key (snd x)) k) eqn:Hk; simpl;
    rewrite ?Hp, ?Hk, IH; reflexivity.
Qed.

Lemma Forall2_in_r {A B : Type} (R : A -> B -> Prop) {l1 l2 y} :
  Forall2 R l1 l2 -> In y l2 -> exists x, In x l1 /\ R x y.
Proof.
  induction 1 as [|a b l1 l2 Hab F IH]; simpl; [contradiction|].
  intros [<-|Hy].
  - exists a. auto.
  - destruct (IH Hy) as (x & Hx & HR). exists x. auto.
Qed.

Lemma Forall2_in_l {A B : Type} (R : A -> B -> Prop) {l1 l2 x} :
  Forall2 R l1 l2 -> In x l1 -> exists y, In y l2 /\ R x y.
Proof.
  induction 1 as [|a b l1 l2 Hab F IH]; simpl; [contradiction|].
  intros [<-|Hx].
  - exists b. auto.
  - destruct (IH Hx) as (y & Hy & HR). exists y. auto.
Qed.

Lemma in_latest_of {vs out} x :
  latest_of vs out ->
  (In x out <-> first_max (group (minor_key (snd x)) vs) = Some x).
Proof.
  intros L. split.
  - intros Hx. destruct (Forall2_in_r _ L Hx) as (k & _ & E).
    pose proof (first_max_in E) as Hg. apply in_group in Hg as [_ <-].
    exact E.
  - intros E. pose proof (first_max_in E) as Hg.
    apply in_group in Hg as [Hx _].
    assert (In (minor_key (snd x)) (keys_from vs [])) as Hk.
    { apply in_keys_from. right. exists x. auto. }
    destruct (Forall2_in_l _ L Hk) as (y & Hy & E').
    rewrite E in E'. injection E' as <-. exact Hy.
Qed.

Lemma latest_of_keys {vs out} :
  latest_of vs out -> map (fun x => minor_key (snd x)) out = keys_from vs [].
Proof.
  unfold latest_of. induction 1 as [|k x ks out E F IH]; simpl; [reflexivity|].
  rewrite IH. f_equal.
  apply first_max_in, in_group in E as [_ E]. exact E.
Qed.

Lemma latest_of_NoDup_keys {vs out} :
  latest_of vs out -> NoDup (map (fun x => minor_key (snd x)) out).
Proof.
  intros L. rewrite (latest_of_keys L). apply NoDup_keys_from. constructor.
Qed.

Lemma latest_of_NoDup {vs out} : latest_of vs out -> NoDup out.
Proof.
  intros L. apply (NoDup_map_inv (fun x => minor_key (snd x))).
  apply (latest_of_NoDup_keys L).
Qed.

(** Every entry is a member of the list and the greatest of its line. *)
Lemma latest_of_greatest {vs out x} :
  latest_of vs out -> In x out ->
  In x vs /\
  forall y, In y vs -> same_minor_line (snd y) (snd x) ->
            Version_le (snd y) (snd x) = true.
Proof.
  intros L Hx. apply (in_latest_of x L) in Hx.
  split.
  - apply first_max_in, in_group in Hx. tauto.
  - intros y Hy S. apply (first_max_greatest y Hx).
    apply in_group. split; [assumption|]. apply minor_key_inj. exact S.
Qed.

(** Every line of the list has an entry. *)
Lemma latest_of_covers {vs out y} :
  latest_of vs out -> In y vs ->
  exists x, In x out /\ same_minor_line (snd x) (snd y).
Proof.
  intros L Hy.
  assert (In (minor_key (snd y)) (keys_from vs [])) as Hk.
  { apply in_keys_from. right. exists y. auto. }
  destruct (Forall2_in_l _ L Hk) as (x & Hx & E).
  exists x. split; [assumption|].
  apply minor_key_inj. apply first_max_in, in_group in E. tauto.
Qed.

Lemma latest_of_nil out : latest_of [] out -> out = [].
Proof. unfold latest_of. simpl. inversion 1. reflexivity. Qed.

Section SelectionFacts.
Context {sv : SemVer}.

Lemma latest_of_groups_returns vs :
  exists out, latest_of_groups vs = OK out /\ latest_of vs out.
Proof. apply latest_of_groups_spec. Qed.

Lemma filter_versions_spec keep bound vs :
  filter_versions keep bound vs =
  match vs with
  | [] => OK []
  | _ :: _ =>
      match Version_parse bound with
      | Some b => OK (filter (fun x => keep (snd x) b) vs)
      | None => Raise (ValueError "Invalid version string")
      end
  end.
Proof.
  induction vs as [|[t v] vs IH]; simpl; [reflexivity|].
  unfold Version_init at 1. destruct (Version_parse bound) as [b|] eqn:E; simpl;
    [|reflexivity].
  rewrite IH. destruct vs as [|y vs]; simpl; [reflexivity|].
  reflexivity.
Qed.

(** A filter that returns has kept exactly the entries that meet the
    bound. *)
Lemma filter_versions_in {keep bound vs out} x :
  filter_versions keep bound vs = OK out ->
  (In x out <-> In x vs /\ meets keep (Some bound) (snd x)).
Proof.
  rewrite filter_versions_spec. destruct vs as [|y vs].
  - intros E. injection E as <-. simpl. tauto.
  - destruct (Version_parse bound) as [b|] eqn:Eb; intros E; [|discriminate].
    injection E as <-.
    change (In x (filter (fun z => keep (snd z) b) (y :: vs)) <->
            In x (y :: vs) /\ meets keep (Some bound) (snd x)).
    rewrite filter_In. simpl. split.
    + intros [H1 H2]. split; [assumption|]. exists b. auto.
    + intros [H1 (b' & E' & H2)]. split; [assumption|]. congruence.
Qed.

Lemma filter_versions_sub {keep bound vs out} :
  filter_versions keep bound vs = OK out ->
  exists p, out = filter p vs.
Proof.
  rewrite filter_versions_spec. destruct vs as [|y vs].
  - intros E. injection E as <-. exists (fun _ => true). reflexivity.
  - destruct (Version_parse bound) as [b|]; intros E; [|discriminate].
    injection E as <-. exists (fun z => keep (snd z) b). reflexivity.
Qed.

End SelectionFacts.

(** ** [get_latest_minor_versions] and the selection of [__main__] *)

Section Selected.
Context {sv : SemVer}.

Lemma cpython_latest_spec tags :
  if forallb nonempty tags
  then exists out, InstallCpython.get_latest_minor_versions tags = OK out /\
                   latest_of (parsed_tags tags) out
  else InstallCpython.get_latest_minor_versions tags = Raise IndexError.
Proof.
  unfold InstallCpython.get_latest_minor_versions.
  rewrite comprehension_normalize.
  destruct (forallb nonempty tags); simpl; [|reflexivity].
  rewrite drop_unparsed_map. apply latest_of_groups_returns.
Qed.

Lemma cpython_latest_inv tags out :
  InstallCpython.get_latest_minor_versions tags = OK out ->
  forallb nonempty tags = true /\ latest_of (parsed_tags tags) out.
Proof.
  intros E. pose proof (cpython_latest_spec tags) as H.
  destruct (forallb nonempty tags); [|congruence].
  destruct H as (out' & E' & L). split; [reflexivity|]. congruence.
Qed.

(** [get_latest_minor_versions] returns on every list of non-empty tags. *)
Lemma cpython_latest_returns tags :
  forallb nonempty tags = true ->
  exists out, InstallCpython.get_latest_minor_versions tags = OK out.
Proof.
  intros H. pose proof (cpython_latest_spec tags) as S. rewrite H in S.
  destruct S as (out & E & _). exists out. exact E.
Qed.

(** Only tags that parse reach the output. *)
Lemma cpython_latest_parseable tags out t v :
  InstallCpython.get_latest_minor_versions tags = OK out ->
  In (t, v) out -> In t tags /\ tag_version t = Some v.
Proof.
  intros E Hx. apply cpython_latest_inv in E as [_ L].
  apply (latest_of_greatest L) in Hx as [Hx _].
  apply in_parsed_tags in Hx. exact Hx.
Qed.

Lemma NoDup_lines out :
  NoDup (map (fun x => minor_key (snd x)) out) -> NoDup (map line out).
Proof.
  intros H.
  apply (NoDup_map_inv (fun p => (str_of_N (fst p) ++ "." ++ str_of_N (snd p))%string)).
  rewrite map_map. exact H.
Qed.

Lemma greatest_of_latest tags {out t v} :
  latest_of (parsed_tags tags) out -> In (t, v) out ->
  In t tags /\ tag_version t = Some v /\ greatest_of_line tags v.
Proof.
  intros L Hx. destruct (latest_of_greatest L Hx) as [Hin G].
  apply in_parsed_tags in Hin as [H1 H2]. repeat split; try assumption.
  intros t' v' Ht' Ev' S.
  apply (G (t', v')); [|exact S].
  apply in_parsed_tags. auto.
Qed.

(** The selection returns the latest entries that meet both bounds. *)
Lemma select_versions_in {minimum maximum tags out} x :
  InstallCpython.select_versions minimum maximum tags = OK out ->
  exists latest,
    latest_of (parsed_tags tags) latest /\
    (In x out <->
     In x latest /\ meets Version_ge minimum (snd x)
     /\ meets Version_le maximum (snd x)) /\
    exists p, out = filter p latest.
Proof.
  unfold InstallCpython.select_versions. intros E.
  destruct (InstallCpython.get_latest_minor_versions tags) as [latest|e] eqn:EL;
    simpl in E; [|discriminate].
  apply cpython_latest_inv in EL as [_ L]. exists latest. split; [exact L|].
  destruct minimum as [lo|], maximum as [hi|]; simpl in *.
  - destruct (filter_versions Version_ge lo latest) as [mid|e] eqn:E1;
      simpl in E; [|discriminate].
    pose proof (filter_versions_in x E1) as I1.
    pose proof (filter_versions_in x E) as I2.
    destruct (filter_versions_sub E1) as (p1 & ->).
    destruct (filter_versions_sub E) as (p2 & ->).
    split; [simpl in *; tauto|].
    exists (fun z => p1 z && p2 z). clear. induction latest as [|a l IH]; simpl;
      [reflexivity|].
    destruct (p1 a); simpl; [destruct (p2 a)|]; rewrite IH; reflexivity.
  - destruct (filter_versions Version_ge lo latest) as [mid|e] eqn:E1;
      simpl in E; [|discriminate].
    injection E as <-.
    pose proof (filter_versions_in x E1) as I1.
    split; [simpl in *; tauto | apply (filter_versions_sub E1)].
  - pose proof (filter_versions_in x E) as I2.
    split; [simpl in *; tauto | apply (filter_versions_sub E)].
  - injection E as <-. split; [tauto|].
    exists (fun _ => true). clear. induction latest as [|a l IH]; simpl;
      [reflexivity | rewrite <- IH; reflexivity].
Qed.

End Selected.

Section Bounds.
Context {sv : SemVer}.

Lemma meets_ge_equiv bound {v w} :
  Version_compare w v = Eq ->
  meets Version_ge bound v -> meets Version_ge bound w.
Proof.
  destruct bound as [s|]; simpl; [|trivial].
  intros E (b & Eb & H). exists b. split; [assumption|].
  apply Version_ge_iff. apply Version_ge_iff in H.
  rewrite (cmp_eq_l Version_compare_preorder _ _ _ E). exact H.
Qed.

Lemma meets_le_equiv bound {v w} :
  Version_compare w v = Eq ->
  meets Version_le bound v -> meets Version_le bound w.
Proof.
  destruct bound as [s|]; simpl; [|trivial].
  intros E (b & Eb & H). exists b. split; [assumption|].
  apply Version_le_iff. apply Version_le_iff in H.
  rewrite (cmp_eq_l Version_compare_preorder _ _ _ E). exact H.
Qed.

Lemma Version_le_antisym v w :
  Version_le v w = true -> Version_le w v = true -> Version_compare v w = Eq.
Proof.
  rewrite !Version_le_iff. rewrite (cmp_opp Version_compare_preorder v w).
  destruct (Version_compare v w); simpl; congruence.
Qed.

Lemma Version_ge_trans u v w :
  Version_ge u v = true -> Version_ge v w = true -> Version_ge u w = true.
Proof.
  rewrite !Version_ge_iff.
  rewrite (cmp_opp Version_compare_preorder v u),
          (cmp_opp Version_compare_preorder w v),
          (cmp_opp Version_compare_preorder w u).
  intros H1 H2 H3.
  apply (cmp_le_trans Version_compare_preorder w v u).
  - destruct (Version_compare w v); simpl in *; congruence.
  - destruct (Version_compare v u); simpl in *; congruence.
  - destruct (Version_compare w u); simpl in *; congruence.
Qed.

Lemma Version_le_ge v w : Version_le v w = Version_ge w v.
Proof.
  unfold Version_le, Version_ge.
  rewrite (cmp_opp Version_compare_preorder v w).
  destruct (Version_compare v w); reflexivity.
Qed.

Lemma Version_ge_lt v w : Version_ge v w = negb (Version_lt v w).
Proof. unfold Version_ge, Version_lt. destruct (Version_compare v w); reflexivity. Qed.

Lemma Version_le_gt v w : Version_le v w = negb (Version_gt v w).
Proof. unfold Version_le, Version_gt. destruct (Version_compare v w); reflexivity. Qed.

Lemma allminor_latest_spec tags minimum :
  if forallb nonempty tags
  then match filter_versions Version_ge minimum (parsed_tags tags) with
       | OK vs =>
           exists out,
             InstallAllMinorVersions.get_latest_minor_versions tags minimum
             = OK out /\ latest_of vs out
       | Raise e =>
           InstallAllMinorVersions.get_latest_minor_versions tags minimum
           = Raise e
       end
  else InstallAllMinorVersions.get_latest_minor_versions tags minimum
       = Raise IndexError.
Proof.
  unfold InstallAllMinorVersions.get_latest_minor_versions.
  rewrite comprehension_normalize.
  destruct (forallb nonempty tags); simpl; [|reflexivity].
  rewrite drop_unparsed_map.
  destruct (filter_versions Version_ge minimum (parsed_tags tags)); simpl;
    [|reflexivity].
  apply latest_of_groups_returns.
Qed.

End Bounds.

(** ** The claims about the selection *)

(** C7: every entry [get_latest_minor_versions] returns is a parseable tag
    of the list whose version no parseable tag of the same (major, minor)
    line exceeds, and no two entries are on the same line, whatever
    duplicates or equal versions the list holds. *)
Theorem latest_entries_are_line_maxima {sv : SemVer} tags out :
  InstallCpython.get_latest_minor_versions tags = OK out ->
  (forall t v, In (t, v) out ->
               In t tags /\ tag_version t = Some v /\ greatest_of_line tags v)
  /\ NoDup (map line out).
Proof.
  intros E. apply cpython_latest_inv in E as [_ L]. split.
  - intros t v Hx. apply (greatest_of_latest _ L Hx).
  - apply NoDup_lines, (latest_of_NoDup_keys L).
Qed.

Lemma latest_entries_are_line_maxima_witness :
  InstallCpython.get_latest_minor_versions (sv := semver) example_tags
  = OK example_latest
  /\ (forall t v, In (t, v) example_latest ->
        In t example_tags /\ tag_version (sv := semver) t = Some v
        /\ greatest_of_line (sv := semver) example_tags v)
  /\ NoDup (map line example_latest).
Proof.
  split; [vm_compute; reflexivity|].
  apply (latest_entries_are_line_maxima (sv := semver) example_tags).
  vm_compute. reflexivity.
Defined.

(** C3, at the input that breaks it: on a list holding the empty string
    [get_latest_minor_versions] raises [IndexError] ([version_tag[0]] in
    [normalize_version]), whatever the parser does. *)
Theorem empty_tag_raises_IndexError {sv : SemVer} :
  InstallCpython.get_latest_minor_versions [EmptyString] = Raise IndexError.
Proof. reflexivity. Qed.

(** C6: an entry of the final selection is not below a given minimum and
    not above a given maximum; in [install_all_minor_versions.py], not
    below the minimum. *)
Theorem selected_versions_within_bounds {sv : SemVer} :
  (forall tags minimum maximum out t v,
      InstallCpython.select_versions minimum maximum tags = OK out ->
      In (t, v) out ->
      (forall s, minimum = Some s ->
                 exists b, Version_parse s = Some b /\ Version_lt v b = false)
      /\ (forall s, maximum = Some s ->
                    exists b, Version_parse s = Some b /\ Version_gt v b = false))
  /\ (forall tags minimum out t v,
         InstallAllMinorVersions.get_latest_minor_versions tags minimum = OK out ->
         In (t, v) out ->
         exists b, Version_parse minimum = Some b /\ Version_lt v b = false).
Proof.
  split.
  - intros tags minimum maximum out t v E Hx.
    destruct (select_versions_in (t, v) E) as (latest & _ & I & _).
    destruct (proj1 I Hx) as (_ & Hlo & Hhi). simpl in Hlo, Hhi.
    split; intros s ->; simpl in *.
    + destruct Hlo as (b & Eb & H). exists b. split; [assumption|].
      rewrite Version_ge_lt in H. destruct (Version_lt v b); [discriminate|reflexivity].
    + destruct Hhi as (b & Eb & H). exists b. split; [assumption|].
      rewrite Version_le_gt in H. destruct (Version_gt v b); [discriminate|reflexivity].
  - intros tags minimum out t v E Hx.
    pose proof (allminor_latest_spec tags minimum) as S.
    destruct (forallb nonempty tags); [|congruence].
    destruct (filter_versions Version_ge minimum (parsed_tags tags)) as [vs|e] eqn:F;
      [|congruence].
    destruct S as (out' & E' & L). assert (out' = out) as -> by congruence.
    destruct (latest_of_greatest L Hx) as [Hin _].
    apply (filter_versions_in (t, v) F) in Hin as [_ (b & Eb & H)].
    exists b. split; [assumption|]. simpl in H.
    rewrite Version_ge_lt in H. destruct (Version_lt v b); [discriminate|reflexivity].
Qed.

Lemma selected_versions_within_bounds_witness :
  InstallCpython.select_versions (sv := semver) (Some "3.0.0") (Some "3.10.0")
                                 example_tags
  = OK [("v3.9.1", release 3 9 1)]
  /\ (exists b, semver_parse "3.0.0" = Some b
                /\ Version_lt (release 3 9 1) b = false)
  /\ (exists b, semver_parse "3.10.0" = Some b
                /\ Version_gt (release 3 9 1) b = false).
Proof.
  split; [vm_compute; reflexivity|].
  assert (InstallCpython.select_versions (sv := semver) (Some "3.0.0")
            (Some "3.10.0") example_tags = OK [("v3.9.1", release 3 9 1)]) as E
      by (vm_compute; reflexivity).
  destruct (proj1 (selected_versions_within_bounds (sv := semver))
                  example_tags (Some "3.0.0") (Some "3.10.0") _
                  "v3.9.1" (release 3 9 1) E (or_introl eq_refl)) as [Hlo Hhi].
  split; [apply (Hlo "3.0.0" eq_refl) | apply (Hhi "3.10.0" eq_refl)].
Defined.

(** The selection returns whenever no tag is empty and the bounds given
    parse. *)
Lemma select_versions_returns {sv : SemVer} minimum maximum tags :
  forallb nonempty tags = true ->
  bound_parses minimum -> bound_parses maximum ->
  exists out, InstallCpython.select_versions minimum maximum tags = OK out.
Proof.
  intros Hne Hlo Hhi. unfold InstallCpython.select_versions.
  destruct (cpython_latest_returns tags Hne) as (latest & ->). simpl.
  assert (forall keep bound vs,
             bound_parses (Some bound) ->
             exists out, filter_versions keep bound vs = OK out) as F.
  { intros keep bound vs (b & Eb). rewrite filter_versions_spec, Eb.
    destruct vs; eexists; reflexivity. }
  destruct minimum as [lo|]; simpl.
  - destruct (F Version_ge lo latest Hlo) as (mid & ->). simpl.
    destruct maximum as [hi|]; [apply F, Hhi | eexists; reflexivity].
  - destruct maximum as [hi|]; [apply F, Hhi | eexists; reflexivity].
Qed.

(** C1, as the code has it: the selection holds no two entries of one
    (major, minor) line; each entry is the latest parseable tag of its line
    and meets the bounds; and every line whose latest parseable version
    meets the bounds has an entry. *)
Theorem one_entry_per_line_whose_latest_is_in_bounds {sv : SemVer}
        tags minimum maximum out :
  InstallCpython.select_versions minimum maximum tags = OK out ->
  NoDup (map line out)
  /\ (forall t v, In (t, v) out ->
        In t tags /\ tag_version t = Some v /\ greatest_of_line tags v
        /\ meets Version_ge minimum v /\ meets Version_le maximum v)
  /\ (forall t v,
        In t tags -> tag_version t = Some v -> greatest_of_line tags v ->
        meets Version_ge minimum v -> meets Version_le maximum v ->
        exists x, In x out /\ same_minor_line (snd x) v).
Proof.
  intros E.
  destruct (select_versions_in ("", release 0 0 0) E) as (latest & L & _ & p & Hp).
  assert (forall x, In x out <->
                    In x latest /\ meets Version_ge minimum (snd x)
                    /\ meets Version_le maximum (snd x)) as I.
  { intros x. destruct (select_versions_in x E) as (latest' & L' & I & _).
    assert (latest' = latest) as ->; [|exact I].
    unfold latest_of in *. clear - L L'.
    revert latest' L'. induction L as [|k y ks l Hy F IH]; intros l' L';
      inversion L' as [|? y' ? l'' Hy' F']; subst; [reflexivity|].
    f_equal; [congruence | apply IH, F']. }
  split; [|split].
  - apply NoDup_lines. subst out.
    pose proof (latest_of_NoDup_keys L) as ND. clear - ND.
    induction latest as [|a l IH]; simpl in *; [constructor|].
    inversion ND as [|? ? Ha Hl]; subst.
    destruct (p a); simpl; [|auto]. constructor; [|auto].
    intros C. apply Ha. apply in_map_iff in C as (y & Ey & Hy).
    apply filter_In in Hy as [Hy _]. apply in_map_iff. exists y. auto.
  - intros t v Hx. apply I in Hx as (Hx & Hlo & Hhi).
    destruct (greatest_of_latest tags L Hx) as (H1 & H2 & H3). auto 6.
  - intros t v Ht Ev G Hlo Hhi.
    assert (In (t, v) (parsed_tags tags)) as Hp' by (apply in_parsed_tags; auto).
    destruct (latest_of_covers L Hp') as ([tx vx] & Hx & S). simpl in S.
    exists (tx, vx). split; [|exact S].
    destruct (latest_of_greatest L Hx) as [Hin Gx].
    apply in_parsed_tags in Hin as [Htx Evx].
    assert (Version_compare vx v = Eq) as Eq.
    { apply Version_le_antisym.
      - apply (G tx vx Htx Evx S).
      - apply (Gx (t, v) Hp'). destruct S. split; symmetry; assumption. }
    apply I. split; [assumption|]. simpl.
    split; [apply (meets_ge_equiv _ Eq Hlo) | apply (meets_le_equiv _ Eq Hhi)].
Qed.

Lemma one_entry_per_line_whose_latest_is_in_bounds_witness :
  let out := [("v3.9.1", release 3 9 1)] in
  InstallCpython.select_versions (sv := semver) (Some "3.0.0") (Some "3.10.0")
                                 example_tags = OK out
  /\ NoDup (map line out)
  /\ (forall t v, In (t, v) out ->
        In t example_tags /\ tag_version (sv := semver) t = Some v
        /\ greatest_of_line (sv := semver) example_tags v
        /\ meets (sv := semver) Version_ge (Some "3.0.0") v
        /\ meets (sv := semver) Version_le (Some "3.10.0") v)
  /\ (forall t v,
        In t example_tags -> tag_version (sv := semver) t = Some v ->
        greatest_of_line (sv := semver) example_tags v ->
        meets (sv := semver) Version_ge (Some "3.0.0") v ->
        meets (sv := semver) Version_le (Some "3.10.0") v ->
        exists x, In x out /\ same_minor_line (snd x) v).
Proof.
  split; [vm_compute; reflexivity|].
  apply (one_entry_per_line_whose_latest_is_in_bounds (sv := semver)
           example_tags (Some "3.0.0") (Some "3.10.0")).
  vm_compute. reflexivity.
Defined.

(** C1 as stated fails: with the tags [v3.9.1] and [v3.9.5] and the bounds
    3.0.0 and 3.9.2, the line 3.9 has a tag within the bounds (v3.9.1) and
    the selection is empty, 3.9.5 being above the maximum. *)
Lemma selection_misses_line_in_bounds :
  exists out,
    InstallCpython.select_versions (sv := semver) (Some "3.0.0") (Some "3.9.2")
                                   ["v3.9.1"; "v3.9.5"] = OK out
    /\ ~ every_line_in_bounds_selected (sv := semver)
           (Some "3.0.0") (Some "3.9.2") ["v3.9.1"; "v3.9.5"] out.
Proof.
  exists []. split; [vm_compute; reflexivity|].
  intros C.
  destruct (C "v3.9.1" (release 3 9 1)) as (x & [] & _).
  - left. reflexivity.
  - reflexivity.
  - exists (release 3 0 0). split; reflexivity.
  - exists (release 3 9 2). split; reflexivity.
Qed.

(** C9: with a minimum and no maximum, filtering before the grouping
    ([install_all_minor_versions.py]) and after it ([install_cpython.py])
    select the same entries, or raise the same exception. *)
Theorem minimum_filter_commutes_with_grouping {sv : SemVer} tags minimum :
  match InstallAllMinorVersions.get_latest_minor_versions tags minimum,
        InstallCpython.select_versions (Some minimum) None tags with
  | OK a, OK b => Permutation a b /\ (forall x, In x a <-> In x b)
  | Raise e, Raise e' => e = e'
  | _, _ => False
  end.
Proof.
  pose proof (allminor_latest_spec tags minimum) as SA.
  pose proof (cpython_latest_spec tags) as SB.
  unfold InstallCpython.select_versions.
  destruct (forallb nonempty tags).
  2:{ rewrite SA, SB. reflexivity. }
  destruct SB as (latest & -> & L). simpl.
  rewrite filter_versions_spec in SA. rewrite filter_versions_spec.
  remember (parsed_tags tags) as vs eqn:Evs. clear Evs.
  destruct vs as [|y vs].
  - destruct SA as (a & -> & LA).
    apply latest_of_nil in L, LA. subst. simpl.
    split; [constructor | tauto].
  - destruct (latest_of_covers L (or_introl eq_refl)) as (z & Hz & _).
    destruct latest as [|z0 latest]; [contradiction|]. clear z Hz.
    destruct (Version_parse minimum) as [b|]; [|rewrite SA; reflexivity].
    destruct SA as (a & -> & LA). simpl.
    set (p := fun x : string * Version => Version_ge (snd x) b) in *.
    assert (forall x, In x a <-> In x (filter p (z0 :: latest))) as I.
    { intros x. rewrite (in_latest_of x LA), filter_In, (in_latest_of x L).
      rewrite group_filter. split.
      - intros E. pose proof (first_max_in E) as Hx.
        apply filter_In in Hx as [Hx Hp]. split; [|exact Hp].
        destruct (first_max (group (minor_key (snd x)) (y :: vs)))
          as [m|] eqn:Em.
        + assert (p m = true) as Hm.
          { unfold p in *. apply (Version_ge_trans _ (snd x)); [|exact Hp].
            rewrite <- Version_le_ge. apply (first_max_greatest x Em Hx). }
          rewrite (first_max_filter p _ Em Hm) in E. congruence.
        + destruct (group (minor_key (snd x)) (y :: vs)); [contradiction|discriminate].
      - intros [E Hp]. apply first_max_filter; assumption. }
    split; [|exact I].
    apply NoDup_Permutation; [apply (latest_of_NoDup LA) | | exact I].
    exact (NoDup_filter p (latest_of_NoDup L)).
Qed.

(** ** Whitespace and [split] *)

Lemma string_app_nil_r (s : string) : (s ++ "")%string = s.
Proof. induction s as [|c s IH]; simpl; [reflexivity | rewrite IH; reflexivity]. Qed.

Lemma string_app_assoc (a b c : string) :
  ((a ++ b) ++ c)%string = (a ++ (b ++ c))%string.
Proof. induction a as [|x a IH]; simpl; [reflexivity | rewrite IH; reflexivity]. Qed.

Lemma starts_with_app p : forall s t,
  starts_with p s = true -> starts_with p (s ++ t) = true.
Proof.
  induction p as [|a p IH]; intros [|b s] t H; simpl in *;
    try reflexivity; try discriminate.
  apply andb_true_iff in H as [H1 H2]. rewrite H1. simpl. apply IH, H2.
Qed.

Lemma wide_spaces_width sp : In sp wide_spaces -> String.length sp <> 0.
Proof.
  intros H. destruct sp; [|discriminate]. exfalso.
  revert H. unfold wide_spaces. simpl.
  intuition discriminate.
Qed.

(** A whitespace character that starts [s] starts every extension of
    [s]. *)
Lemma space_width_app s t : space_width (s ++ t) = 0 -> space_width s = 0.
Proof.
  destruct s as [|c s]; [reflexivity|].
  change (String c s ++ t)%string with (String c (s ++ t)).
  unfold space_width.
  destruct (is_space c); [discriminate|].
  destruct (find (fun sp => starts_with sp (String c s)) wide_spaces)
    as [sp|] eqn:F; [|reflexivity].
  apply find_some in F as [Hin Hsp].
  destruct (find (fun sp => starts_with sp (String c (s ++ t))) wide_spaces)
    as [sp'|] eqn:F'.
  - apply find_some in F' as [Hin' _]. intros E.
    exfalso. apply (wide_spaces_width sp' Hin' E).
  - intros _. exfalso.
    pose proof (find_none _ _ F' sp Hin) as C. cbv beta in C.
    pose proof (starts_with_app sp (String c s) t Hsp) as C'.
    change (String c s ++ t)%string with (String c (s ++ t)) in C'.
    congruence.
Qed.

Lemma space_width_not_space c s :
  space_width (String c s) = 0 -> is_space c = false.
Proof.
  unfold space_width. destruct (is_space c); [discriminate | reflexivity].
Qed.

(** A character below 128 is whitespace only if it is ASCII whitespace. *)
Lemma space_width_ascii c s :
  (N_of_ascii c <? 128)%N = true ->
  space_width (String c s) = if is_space c then 1 else 0.
Proof.
  intros H. unfold space_width. destruct (is_space c); [reflexivity|].
  destruct (find (fun sp => starts_with sp (String c s)) wide_spaces)
    as [sp|] eqn:F; [|reflexivity].
  exfalso. apply find_some in F as [Hin Hsp].
  assert (forall d rest, sp = String d rest -> (128 <=? N_of_ascii d)%N = true
                         -> False) as K.
  { intros d rest -> Hd. simpl in Hsp.
    apply andb_true_iff in Hsp as [Hc _].
    apply Ascii.eqb_eq in Hc. subst d.
    apply N.ltb_lt in H. apply N.leb_le in Hd. lia. }
  revert Hin. unfold wide_spaces. simpl.
  intros Hin.
  repeat (destruct Hin as [<-|Hin]; [eapply K; [reflexivity | reflexivity]|]).
  exact Hin.
Qed.

Lemma spaceless_not_space s :
  spaceless s = true -> all_chars not_space s = true.
Proof.
  induction s as [|c s IH]; [reflexivity|].
  cbn [spaceless all_chars]. intros H.
  apply andb_true_iff in H as [H1 H2]. apply Nat.eqb_eq in H1.
  unfold not_space at 1. rewrite (space_width_not_space c s H1), IH by exact H2.
  reflexivity.
Qed.

Lemma spaceless_drop n : forall s,
  spaceless s = true -> spaceless (drop n s) = true.
Proof.
  induction n as [|n IH]; intros [|c s] H; try exact H.
  cbn [spaceless] in H. apply andb_true_iff in H as [_ H].
  simpl. apply IH, H.
Qed.

Lemma run_before_snoc tok c s :
  run_before tok (String c s) -> space_width (String c s) = 0 ->
  run_before (tok ++ String c EmptyString) s.
Proof.
  intros H Hc. induction tok as [|d tok IH].
  - split; [exact Hc | exact I].
  - destruct H as [H1 H2]. cbn [append run_before] in *.
    split; [|apply IH, H2].
    rewrite string_app_assoc. exact H1.
Qed.

Lemma run_before_spaceless tok s : run_before tok s -> spaceless tok = true.
Proof.
  induction tok as [|d tok IH]; [reflexivity|].
  intros [H1 H2]. cbn [spaceless].
  rewrite (space_width_app _ _ H1), IH by exact H2. reflexivity.
Qed.

(** [split] returns pieces that hold no whitespace character. *)
Lemma split_from_spaceless s : forall skip tok,
  (skip <> 0 -> tok = EmptyString) -> run_before tok s ->
  Forall (fun t => spaceless t = true) (split_from skip tok s).
Proof.
  induction s as [|c s IH]; intros skip tok Hs H.
  - simpl. destruct tok; repeat constructor.
    apply (run_before_spaceless _ _ H).
  - cbn [split_from]. destruct skip as [|k].
    + destruct (space_width (String c s)) as [|k] eqn:W.
      * apply IH; [congruence | apply run_before_snoc; assumption].
      * assert (Forall (fun t => spaceless t = true)
                       (split_from k EmptyString s)) as R
            by (apply IH; [reflexivity | exact I]).
        destruct tok; [exact R|].
        constructor; [apply (run_before_spaceless _ _ H) | exact R].
    + rewrite (Hs (Nat.neq_succ_0 k)). apply IH; [reflexivity | exact I].
Qed.

Lemma split_spaceless s : Forall (fun t => spaceless t = true) (split s).
Proof. apply split_from_spaceless; [reflexivity | exact I]. Qed.

(** [split] returns no empty piece. *)
Lemma split_from_nonempty s : forall skip tok,
  Forall (fun t => nonempty t = true) (split_from skip tok s).
Proof.
  induction s as [|c s IH]; intros skip tok; cbn [split_from].
  - destruct tok; repeat constructor.
  - destruct skip; [|apply IH].
    destruct (space_width (String c s)); [apply IH|].
    destruct tok; [apply IH|]. constructor; [reflexivity | apply IH].
Qed.

Lemma split_nonempty s : forallb nonempty (split s) = true.
Proof.
  apply forallb_forall. apply Forall_forall. apply split_from_nonempty.
Qed.

(** A run of characters that holds no whitespace is one piece. *)
Lemma split_from_word w : forall tok,
  spaceless w = true -> nonempty (tok ++ w) = true ->
  split_from 0 tok w = [(tok ++ w)%string].
Proof.
  induction w as [|c w IH]; intros tok Hw Hne.
  - simpl. rewrite string_app_nil_r in *. destruct tok; [discriminate | reflexivity].
  - cbn [spaceless] in Hw. apply andb_true_iff in Hw as [Hc Hw].
    apply Nat.eqb_eq in Hc. cbn [split_from]. rewrite Hc.
    rewrite IH; [| exact Hw |]; rewrite string_app_assoc; simpl; [reflexivity|].
    destruct tok; reflexivity.
Qed.

(** ** Distro detection *)

Lemma id_like_values_spaceless content :
  Forall (fun v => spaceless v = true)
         (InstallCpython.id_like_values content).
Proof.
  unfold InstallCpython.id_like_values.
  apply Forall_forall. intros v Hv.
  apply in_map_iff in Hv as (line & <- & Hl).
  apply filter_In in Hl as [Hl _].
  apply spaceless_drop.
  pose proof (split_spaceless content) as F. rewrite Forall_forall in F. auto.
Qed.

Lemma id_like_values_no_space content :
  Forall (fun v => all_chars not_space v = true)
         (InstallCpython.id_like_values content).
Proof.
  eapply Forall_impl; [|apply id_like_values_spaceless].
  intros t. apply spaceless_not_space.
Qed.

Lemma DistroLike_of_value_RedHatFedora v :
  InstallCpython.DistroLike_of_value v = OK InstallCpython.RedHatFedora ->
  v = "rhel fedora".
Proof.
  unfold InstallCpython.DistroLike_of_value. simpl.
  destruct (String.eqb_spec v "debian"); [discriminate|].
  destruct (String.eqb_spec v "rhel fedora"); [auto | discriminate].
Qed.

Lemma detect_distro_like_spec content :
  InstallCpython.detect_distro_like content =
  match InstallCpython.id_like_values content with
  | [v] =>
      if String.eqb v "debian" then OK InstallCpython.Debian
      else if String.eqb v "rhel fedora" then OK InstallCpython.RedHatFedora
      else Raise (ValueError ("Unsupported distro: " ++ v))
  | _ => Raise (ValueError "Unexpected format of /etc/os-release")
  end.
Proof.
  unfold InstallCpython.detect_distro_like.
  destruct (InstallCpython.id_like_values content) as [|v [|w l]];
    try reflexivity.
  simpl. unfold InstallCpython.DistroLike_of_value. simpl.
  destruct (String.eqb v "debian"); [reflexivity|].
  destruct (String.eqb v "rhel fedora"); reflexivity.
Qed.

(** C10: [detect_distro_like] never returns [RedHatFedora]; a single
    [ID_LIKE=] value other than [debian] ends in the "Unsupported distro"
    error, the value being a whitespace-free piece of the file. *)
Theorem detect_distro_like_never_RedHatFedora content :
  InstallCpython.detect_distro_like content <> OK InstallCpython.RedHatFedora
  /\ Forall (fun v => all_chars not_space v = true)
            (InstallCpython.id_like_values content)
  /\ (forall v, InstallCpython.id_like_values content = [v] -> v <> "debian" ->
        InstallCpython.detect_distro_like content
        = Raise (ValueError ("Unsupported distro: " ++ v))).
Proof.
  pose proof (id_like_values_no_space content) as F.
  assert (forall v, InstallCpython.id_like_values content = [v] ->
                    String.eqb v "rhel fedora" = false) as NR.
  { intros v E. rewrite E in F. inversion F as [|? ? Hv _]; subst.
    destruct (String.eqb_spec v "rhel fedora") as [->|]; [|reflexivity].
    discriminate Hv. }
  split; [|split; [exact F|]].
  - rewrite detect_distro_like_spec.
    destruct (InstallCpython.id_like_values content) as [|v [|w l]];
      try discriminate.
    rewrite (NR v eq_refl). destruct (String.eqb v "debian"); discriminate.
  - intros v E Hv. rewrite detect_distro_like_spec, E, (NR v E).
    destruct (String.eqb_spec v "debian"); [contradiction | reflexivity].
Qed.

Lemma detect_distro_like_never_RedHatFedora_witness :
  InstallCpython.id_like_values centos_os_release = [(quote ++ "rhel")%string]
  /\ InstallCpython.detect_distro_like centos_os_release
     = Raise (ValueError ("Unsupported distro: " ++ quote ++ "rhel")%string).
Proof.
  split; [reflexivity|].
  apply (proj2 (proj2 (detect_distro_like_never_RedHatFedora centos_os_release))
               (quote ++ "rhel")%string); [reflexivity | discriminate].
Defined.

(** The part of C8 about the function: an unsupported file makes
    [detect_distro_like] raise [ValueError]. *)
Lemma detect_distro_like_unsupported content :
  unsupported_os_release content ->
  exists msg, InstallCpython.detect_distro_like content = Raise (ValueError msg).
Proof.
  rewrite detect_distro_like_spec.
  intros [H|(v & E & H1 & H2)].
  - destruct (InstallCpython.id_like_values content) as [|v [|w l]];
      [eexists; reflexivity | simpl in H; congruence | eexists; reflexivity].
  - rewrite E.
    destruct (String.eqb_spec v "debian"); [contradiction|].
    destruct (String.eqb_spec v "rhel fedora"); [contradiction|].
    eexists; reflexivity.
Qed.

(** ** The monad of the scripts *)

Section Monad.
Context {O : Outside}.


Lemma bindM_step {A B : Type} (m : M A) (k : A -> M B) st :
  bindM m k st = match m st with
                 | (st', OK a) => k a st'
                 | (st', Raise e) => (st', Raise e)
                 end.
Proof. reflexivity. Qed.

Lemma bindM_OK {A B : Type} (m : M A) (k : A -> M B) st {st' a} :
  m st = (st', OK a) -> bindM m k st = k a st'.
Proof. intros E. rewrite bindM_step, E. reflexivity. Qed.

Lemma bindM_Raise {A B : Type} (m : M A) (k : A -> M B) st {st' e} :
  m st = (st', Raise e) -> bindM m k st = (st', Raise e).
Proof. intros E. rewrite bindM_step, E. reflexivity. Qed.

Lemma bindM_ret_r (m : M unit) st : bindM m (fun _ => ret tt) st = m st.
Proof.
  unfold bindM, ret. destruct (m st) as [st' [[]|e]]; reflexivity.
Qed.

Lemma bindM_congr {A B : Type} (m : M A) (k1 k2 : A -> M B) st :
  (forall a st', k1 a st' = k2 a st') -> bindM m k1 st = bindM m k2 st.
Proof.
  intros H. unfold bindM. destruct (m st) as [st' [a|e]]; [apply H | reflexivity].
Qed.

End Monad.

(** ** Decoding *)

Lemma decode_Raise b e : decode b = Raise e -> e = UnicodeDecodeError.
Proof.
  unfold decode. destruct (well_formed [] b); [discriminate|].
  intros E. injection E as <-. reflexivity.
Qed.

Section Processes.
Context {O : Outside}.

(** What one command does to the world and to the log, by its outcome. *)
Lemma safe_run_process_ran cmd cwd st :
  exists evs r w',
    safe_run_process cmd cwd st = (mkState w' (log st ++ evs), r)
    /\ ran cwd cmd (world st) evs r w'.
Proof.
  unfold safe_run_process, bindM, popen.
  destruct (spawn (world st) (split cmd) cwd) as [w [proc|]] eqn:E.
  2:{ eexists _, _, _. split; [reflexivity | apply ran_not_started, E]. }
  destruct (Z.eqb_spec (returncode proc) 0) as [Z|NZ]; cbn [negb].
  { eexists _, _, _. split; [reflexivity | apply ran_ok; assumption]. }
  unfold print, lift, raise. cbn [world log].
  destruct (decode (out proc)) as [out_text|e] eqn:Eo.
  2:{ apply decode_Raise in Eo as Ee. subst e.
      eexists _, _, _. rewrite <- app_assoc.
      split; [reflexivity | apply ran_garbled_out; assumption]. }
  destruct (decode (err proc)) as [err_text|e] eqn:Ee.
  2:{ apply decode_Raise in Ee as Ee'. subst e.
      eexists _, _, _. rewrite <- !app_assoc.
      split; [reflexivity | eapply ran_garbled_err; eassumption]. }
  eexists _, _, _. rewrite <- !app_assoc.
  split; [reflexivity | eapply ran_failed; eassumption].
Qed.

(** What a command raises is [OSError], one of its subclasses, or
    [UnicodeDecodeError]. *)
Lemma ran_raises {cwd cmd w evs e w'} :
  ran cwd cmd w evs (Raise e) w' ->
  e = OSError \/ e = FileNotFoundError \/ e = UnicodeDecodeError.
Proof. inversion 1; auto. Qed.




(** ** Failures that wrote text *)







End Processes.

(** ** [sorted(..., reverse=True)] *)









(** ** The loops of the two scripts *)

Section Loops.
Context {O : Outside}.

Lemma cpython_build_version_actions repo tag st :
  InstallCpython.build_version repo tag st
  = run_actions (Some repo) (cpython_steps tag) st.
Proof.
  unfold InstallCpython.build_version, cpython_steps. cbn [run_actions].
  repeat (apply bindM_congr; intros ? ?).
  symmetry. apply bindM_ret_r.
Qed.

Lemma allminor_build_version_actions repo tag st :
  InstallAllMinorVersions.build_version repo tag st
  = run_actions (Some repo) (allminor_steps tag) st.
Proof.
  unfold InstallAllMinorVersions.build_version, allminor_steps.
  cbn [run_actions].
  repeat (apply bindM_congr; intros ? ?).
  symmetry. apply bindM_ret_r.
Qed.



End Loops.

(** C2, at an input that breaks it: of the tags [v3.9.0] and [v3.10.0],
    both selected, the loop of [install_cpython.py] and that of
    [install_all_minor_versions.py] take [v3.9.0] first, although 3.10.0 is
    the greater version: [sorted(version_tags, reverse=True)] compares the
    tag strings, and the order of the builds is not the descending order of
    the versions. *)
Theorem build_order_is_not_version_order :
  exists selected,
    InstallCpython.select_versions (sv := semver) (Some "3.0.0") None
                                   ["v3.9.0"; "v3.10.0"] = OK selected
    /\ getting_lines
         (log (fst (InstallCpython.main (sv := semver) (cpython_args false)
                      (boot two_tags debian_os_release []))))
       = [">>> Getting v3.9.0"; ">>> Getting v3.10.0"]
    /\ getting_lines
         (log (fst (InstallAllMinorVersions.main (sv := semver)
                      (allminor_args false)
                      (boot two_tags debian_os_release []))))
       = [">>> Getting v3.9.0"; ">>> Getting v3.10.0"]
    /\ ~ descending_by_version (sv := semver)
           (sorted_reverse (map fst selected)).
Proof.
  exists [("v3.9.0", release 3 9 0); ("v3.10.0", release 3 10 0)].
  split; [vm_compute; reflexivity|].
  split; [vm_compute; reflexivity|].
  split; [vm_compute; reflexivity|].
  change (sorted_reverse
            (map fst [("v3.9.0", release 3 9 0); ("v3.10.0", release 3 10 0)]))
    with ["v3.9.0"; "v3.10.0"].
  intros C.
  destruct (C "v3.10.0" "v3.9.0" (release 3 10 0) (release 3 9 0))
    as (l1 & l2 & E & Hin); simpl; auto.
  destruct l1 as [|x [|y l1]]; simpl in E.
  - discriminate E.
  - inversion E; subst. contradiction.
  - inversion E as [[Ex Ey El]]. destruct l1; discriminate El.
Qed.

(** ** The [__main__] blocks *)

Section Mains.
Context {sv : SemVer} {O : Outside}.

Lemma check_output_cases argv cwd st :
  (exists w proc,
      spawn (world st) argv cwd = (w, Some proc)
      /\ returncode proc = 0%Z
      /\ check_output argv cwd st
         = (mkState w (log st ++ [Exec argv cwd (Some proc)]), OK (out proc)))
  \/ (exists w o e,
         spawn (world st) argv cwd = (w, o)
         /\ (forall proc, o = Some proc -> returncode proc <> 0%Z)
         /\ check_output argv cwd st
            = (mkState w (log st ++ [Exec argv cwd o]), Raise e)).
Proof.
  unfold check_output, bindM, popen.
  destruct (spawn (world st) argv cwd) as [w [proc|]].
  - destruct (Z.eqb_spec (returncode proc) 0) as [Z|NZ].
    + left. exists w, proc. auto.
    + right. exists w, (Some proc), (CalledProcessError (returncode proc)).
      repeat split. intros p E. injection E as <-. exact NZ.
  - right. exists w, None, FileNotFoundError. repeat split. discriminate.
Qed.

(** The first part of both [__main__]s, over the selection each applies. *)
Lemma record_cases
      (selection : list string -> result (list (string * Version))) repo st :
  recorded repo st
    (bindM (get_versions repo) (fun versions =>
     bindM (lift (selection versions)) (fun versions =>
     bindM (check_output (split "git rev-parse HEAD") (Some repo))
           (fun output =>
     bindM (lift (decode output)) (fun initial_ref =>
     bindM (print stdout (">>> Initial ref: " ++ strip initial_ref)) (fun _ =>
     ret (map fst versions, strip initial_ref)))))) st).
Proof.
  unfold recorded. cbv zeta.
  destruct (check_output_cases (split "git tag") (Some repo) st)
    as [(w & p1 & S1 & _ & E1)|(w & o & e & S1 & _ & E1)].
  2:{ left. exists w, o, e. split; [exact S1|].
      apply bindM_Raise. unfold get_versions. apply bindM_Raise. exact E1. }
  destruct (decode (out p1)) as [text|e] eqn:D1.
  2:{ left. exists w, (Some p1), e. split; [exact S1|].
      apply bindM_Raise. unfold get_versions. rewrite (bindM_OK _ _ _ E1).
      apply bindM_Raise. unfold lift. rewrite D1. reflexivity. }
  assert (get_versions repo st
          = (mkState w (log st ++ [Exec (split "git tag") (Some repo) (Some p1)]),
             OK (split text))) as G.
  { unfold get_versions. rewrite (bindM_OK _ _ _ E1).
    unfold bindM, lift, ret. rewrite D1. reflexivity. }
  rewrite (bindM_OK _ _ _ G).
  destruct (selection (split text)) as [versions|e].
  2:{ left. exists w, (Some p1), e. split; [exact S1 | reflexivity]. }
  rewrite (bindM_OK _ _ _ (eq_refl : lift (OK versions) _ = (_, OK versions))).
  cbv beta.
  destruct (check_output_cases (split "git rev-parse HEAD") (Some repo)
              (mkState w (log st ++ [Exec (split "git tag") (Some repo) (Some p1)])))
    as [(w' & p2 & S2 & Z2 & E2)|(w' & o & e & S2 & _ & E2)];
    cbn [world] in S2.
  - rewrite (bindM_OK _ _ _ E2).
    destruct (decode (out p2)) as [ref|e] eqn:D2.
    + right. right. exists w, p1, w', p2, ref, (map fst versions).
      repeat (split; [assumption|]).
      unfold bindM, lift, print, ret. cbn [log world].
      rewrite <- !app_assoc. reflexivity.
    + right. left. exists w, p1, w', (Some p2), e.
      repeat (split; [assumption|]).
      unfold bindM, lift. cbn [log world].
      rewrite <- !app_assoc. reflexivity.
  - right. left. exists w, p1, w', o, e.
    repeat (split; [assumption|]).
    rewrite (bindM_Raise _ _ _ E2). cbn [log world].
    rewrite <- !app_assoc. reflexivity.
Qed.

Lemma cpython_record_cases args st :
  recorded (InstallCpython.cpython_repo_dir args) st
           (InstallCpython.select_and_record args st).
Proof.
  exact (record_cases
           (InstallCpython.select_versions
              (InstallCpython.minimum_python_version args)
              (InstallCpython.maximum_python_version args)) _ st).
Qed.


(** The part of a [__main__] before the loop returns what its first part
    returned. *)
Lemma cpython_prepare_returns args st st1 p :
  InstallCpython.prepare args st = (st1, OK p) ->
  exists st0,
    InstallCpython.select_and_record args st = (st0, OK p)
    /\ InstallCpython.set_up args st0 = (st1, OK tt).
Proof.
  unfold InstallCpython.prepare. intros E. rewrite bindM_step in E.
  destruct (InstallCpython.select_and_record args st) as [st0 [p'|e]];
    [|discriminate E].
  rewrite bindM_step in E.
  destruct (InstallCpython.set_up args st0) as [st2 [[]|e]] eqn:E2;
    [|discriminate E].
  injection E as <- <-. exists st0. split; [reflexivity | exact E2].
Qed.



End Mains.




(** C5, at an input that breaks it: the repository is at the ref
    [0123abc]; [make clean] exits with status 1 having written bytes that
    are not UTF-8.  In both scripts [out.decode()] then raises
    [UnicodeDecodeError] inside [safe_run_process], which [except OSError]
    does not catch: the run ends in the build sequence of the first tag,
    [make clean] is the last command it launches, and the ref recorded at
    the start is never checked out again. *)
Theorem undecodable_failure_leaves_ref_unrestored :
  left_unrestored "0123abc" "v3.9.0" ["make"; "clean"]
    (InstallCpython.main (sv := semver) (cpython_args false)
       (boot_with garbled two_tags debian_os_release [["make"; "clean"]]))
  /\ left_unrestored "0123abc" "v3.9.0" ["make"; "clean"]
       (InstallAllMinorVersions.main (sv := semver) (allminor_args false)
          (boot_with garbled two_tags debian_os_release [["make"; "clean"]])).
Proof.
  split; (split; [vm_compute; reflexivity|]);
    (split; [vm_compute; tauto|]);
    (split; [vm_compute; reflexivity|]);
    (split; [vm_compute; reflexivity|]);
    vm_compute; intuition discriminate.
Qed.

(** C8: when [/etc/os-release] is unsupported, [detect_distro_like] raises
    [ValueError], and the run of [install_cpython.py] ends with an exception
    in the part of [__main__] before the loop, having launched at most the
    tag listing and [git rev-parse HEAD]. *)
Theorem unsupported_distro_stops_before_builds
        {sv : SemVer} {O : Outside} args st content :
  (forall w, os_release w = Content content) ->
  unsupported_os_release content ->
  (exists msg,
      InstallCpython.detect_distro_like content = Raise (ValueError msg))
  /\ exists st' e,
       InstallCpython.prepare args st = (st', Raise e)
       /\ InstallCpython.main args st = (st', Raise e)
       /\ stopped_in_setup (InstallCpython.cpython_repo_dir args) st st' e.
Proof.
  intros Hos Hbad.
  destruct (detect_distro_like_unsupported content Hbad) as (msg & Hd).
  split; [exists msg; exact Hd|].
  assert (forall st' e, InstallCpython.prepare args st = (st', Raise e) ->
                        InstallCpython.main args st = (st', Raise e)) as Hmain.
  { intros st' e Hp. unfold InstallCpython.main. apply bindM_Raise, Hp. }
  unfold InstallCpython.prepare in *. unfold stopped_in_setup. cbv zeta.
  destruct (cpython_record_cases args st)
    as [(w & o & e & S1 & E)
       |[(w1 & p1 & w & o2 & e & S1 & S2 & E)
        |(w1 & p1 & w & p2 & text & tags & S1 & S2 & Z2 & D2 & E)]].
  - pose proof (bindM_Raise _ (fun p => bindM (InstallCpython.set_up args)
                                              (fun _ => ret p)) _ E) as Hp.
    eexists _, e. repeat split; [exact Hp | apply Hmain, Hp|].
    left. exists o. split; [exact S1 | reflexivity].
  - pose proof (bindM_Raise _ (fun p => bindM (InstallCpython.set_up args)
                                              (fun _ => ret p)) _ E) as Hp.
    eexists _, e. repeat split; [exact Hp | apply Hmain, Hp|].
    right. left. exists w1, p1, o2. repeat split; assumption.
  - match type of E with _ = (?s, _) => set (st3 := s) in * end.
    assert (InstallCpython.set_up args st3
            = (mkState (world st3)
                       (log st3 ++ [Print stdout ">>> Installing system dependencies"]),
               Raise (ValueError msg))) as Es.
    { unfold InstallCpython.set_up.
      rewrite (bindM_OK _ _ _ (eq_refl : print stdout _ st3 = (_, OK tt))).
      assert (forall s, read_os_release s = (s, OK content)) as Hr.
      { intros s. unfold read_os_release. rewrite Hos. reflexivity. }
      rewrite (bindM_OK _ _ _ (Hr _)).
      apply bindM_Raise. unfold lift. rewrite Hd. reflexivity. }
    pose proof (bindM_OK _ (fun p => bindM (InstallCpython.set_up args)
                                           (fun _ => ret p)) _ E) as Hp.
    cbv beta in Hp. rewrite (bindM_Raise _ _ _ Es) in Hp.
    eexists _, _. repeat split; [exact Hp | apply Hmain, Hp |].
    right. right. exists w1, p1, p2, text, msg. subst st3. cbn [world log].
    repeat (split; [assumption|]).
    rewrite <- app_assoc. split; reflexivity.
Qed.

Lemma unsupported_distro_stops_before_builds_witness :
  let st := boot two_tags centos_os_release [] in
  unsupported_os_release centos_os_release
  /\ exists st' e,
       InstallCpython.prepare (sv := semver) (cpython_args false) st
       = (st', Raise e)
       /\ InstallCpython.main (sv := semver) (cpython_args false) st
          = (st', Raise e)
       /\ stopped_in_setup "/src/cpython" st st' e.
Proof.
  intros st.
  assert (unsupported_os_release centos_os_release) as Hbad.
  { right. exists (quote ++ "rhel")%string.
    split; [reflexivity|]. split; discriminate. }
  split; [exact Hbad|].
  apply (proj2 (unsupported_distro_stops_before_builds
                  (sv := semver) (cpython_args false) st centos_os_release
                  (fun _ => eq_refl) Hbad)).
Defined.

(* ====================================================================== *)
(** * Part 5: further properties of the scripts                           *)
(* ====================================================================== *)

(** ** When the selection raises *)

Lemma forallb_nonempty_iff tags :
  forallb nonempty tags = true <-> ~ In EmptyString tags.
Proof.
  rewrite forallb_forall. split.
  - intros H C. specialize (H _ C). discriminate.
  - intros H t Ht. destruct t; [contradiction | reflexivity].
Qed.

Lemma parsed_tags_nil_iff {sv : SemVer} tags :
  parsed_tags tags = [] <-> forall t, In t tags -> tag_version t = None.
Proof.
  split.
  - intros E t Ht. destruct (tag_version t) as [v|] eqn:Ev; [|reflexivity].
    assert (In (t, v) (parsed_tags tags)) as C by (apply in_parsed_tags; auto).
    rewrite E in C. contradiction.
  - intros H. destruct (parsed_tags tags) as [|[t v] l] eqn:E; [reflexivity|].
    assert (In (t, v) (parsed_tags tags)) as C by (rewrite E; left; reflexivity).
    apply in_parsed_tags in C as [Ht Ev]. rewrite (H t Ht) in Ev. discriminate.
Qed.

(** X1: [get_latest_minor_versions] of [install_cpython.py] returns unless
    the list holds the empty string, and then the exception is
    [IndexError]: the dict lookup of the grouping loop never misses its key
    and [max] never meets an empty group. *)
Theorem get_latest_minor_versions_raises_only_on_empty_tag
        {sv : SemVer} tags :
  match InstallCpython.get_latest_minor_versions tags with
  | OK _ => ~ In EmptyString tags
  | Raise e => e = IndexError /\ In EmptyString tags
  end.
Proof.
  pose proof (cpython_latest_spec tags) as S.
  pose proof (forallb_nonempty_iff tags) as I.
  destruct (forallb nonempty tags).
  - destruct S as (out & -> & _). apply I. reflexivity.
  - rewrite S. split; [reflexivity|].
    destruct (in_dec string_dec EmptyString tags) as [H|H]; [exact H|].
    apply I in H. discriminate.
Qed.

(** X2: [get_latest_minor_versions] of [install_all_minor_versions.py]
    raises [IndexError] when the list holds the empty string; otherwise it
    raises [ValueError] exactly when the minimum does not parse and some tag
    does (with no parseable tag the minimum is never looked at); otherwise it
    returns. *)
Theorem get_latest_minor_versions_with_minimum_raises
        {sv : SemVer} tags minimum :
  match InstallAllMinorVersions.get_latest_minor_versions tags minimum with
  | OK _ =>
      ~ In EmptyString tags
      /\ (Version_parse minimum = None ->
          forall t, In t tags -> tag_version t = None)
  | Raise e =>
      (e = IndexError /\ In EmptyString tags)
      \/ (exists msg, e = ValueError msg)
         /\ ~ In EmptyString tags
         /\ Version_parse minimum = None
         /\ exists t v, In t tags /\ tag_version t = Some v
  end.
Proof.
  pose proof (allminor_latest_spec tags minimum) as S.
  pose proof (forallb_nonempty_iff tags) as I.
  destruct (forallb nonempty tags).
  - assert (~ In EmptyString tags) as Hne by (apply I; reflexivity).
    rewrite filter_versions_spec in S.
    destruct (parsed_tags tags) as [|[t v] l] eqn:Ep.
    + destruct S as (out & -> & _). split; [exact Hne|].
      intros _. apply parsed_tags_nil_iff, Ep.
    + destruct (Version_parse minimum) as [b|] eqn:Eb.
      * destruct S as (out & -> & _). split; [exact Hne | discriminate].
      * rewrite S. right. split; [eexists; reflexivity|].
        split; [exact Hne|]. split; [reflexivity|].
        exists t, v. apply in_parsed_tags. rewrite Ep. left. reflexivity.
  - rewrite S. left. split; [reflexivity|].
    destruct (in_dec string_dec EmptyString tags) as [H|H]; [exact H|].
    apply I in H. discriminate.
Qed.

(** X3: the bounds of [install_cpython.py] are parsed inside the filters,
    once per entry to filter.  With no parseable tag the selection is empty
    whatever the bounds are, parseable or not; with a parseable tag, a
    minimum that does not parse makes the selection raise [ValueError]. *)
Theorem bounds_are_parsed_only_when_filtering {sv : SemVer} tags :
  ~ In EmptyString tags ->
  (forall minimum maximum,
      (forall t, In t tags -> tag_version t = None) ->
      InstallCpython.select_versions minimum maximum tags = OK [])
  /\ (forall minimum maximum,
         Version_parse minimum = None ->
         (exists t v, In t tags /\ tag_version t = Some v) ->
         exists msg,
           InstallCpython.select_versions (Some minimum) maximum tags
           = Raise (ValueError msg)).
Proof.
  intros Hne. apply forallb_nonempty_iff in Hne.
  pose proof (cpython_latest_spec tags) as S. rewrite Hne in S.
  destruct S as (latest & E & L).
  unfold InstallCpython.select_versions. rewrite E. simpl. split.
  - intros minimum maximum Hnone.
    apply parsed_tags_nil_iff in Hnone. rewrite Hnone in L.
    apply latest_of_nil in L. subst latest.
    destruct minimum, maximum; reflexivity.
  - intros minimum maximum Eb (t & v & Ht & Ev).
    assert (In (t, v) (parsed_tags tags)) as Hp by (apply in_parsed_tags; auto).
    destruct (latest_of_covers L Hp) as (x & Hx & _).
    rewrite filter_versions_spec, Eb.
    destruct latest; [contradiction|]. eexists. reflexivity.
Qed.

Lemma bounds_are_parsed_only_when_filtering_witness :
  ~ In EmptyString ["junk"; "v3.10.0a1"]
  /\ semver_parse "not-a-version" = None
  /\ InstallCpython.select_versions (sv := semver)
       (Some "not-a-version") (Some "neither") ["junk"; "v3.10.0a1"] = OK []
  /\ exists msg,
       InstallCpython.select_versions (sv := semver)
         (Some "not-a-version") None ["junk"; "v3.9.0"]
       = Raise (ValueError msg).
Proof.
  assert (~ In EmptyString ["junk"; "v3.10.0a1"]) as H1
      by (simpl; intros [C|[C|[]]]; discriminate C).
  assert (~ In EmptyString ["junk"; "v3.9.0"]) as H2
      by (simpl; intros [C|[C|[]]]; discriminate C).
  split; [exact H1|]. split; [reflexivity|]. split.
  - apply (proj1 (bounds_are_parsed_only_when_filtering (sv := semver) _ H1)).
    intros t [<-|[<-|[]]]; reflexivity.
  - apply (proj2 (bounds_are_parsed_only_when_filtering (sv := semver) _ H2));
      [reflexivity|].
    exists "v3.9.0", (release 3 9 0). split; [simpl; auto | reflexivity].
Defined.

(** ** What the selection holds *)

(** X4: every minor line with a parseable tag has an entry in what
    [get_latest_minor_versions] returns, and the result is empty exactly
    when no tag parses. *)
Theorem every_parseable_line_has_an_entry {sv : SemVer} tags out :
  InstallCpython.get_latest_minor_versions tags = OK out ->
  (forall t v, In t tags -> tag_version t = Some v ->
               exists x, In x out /\ same_minor_line (snd x) v)
  /\ (out = [] <-> forall t, In t tags -> tag_version t = None).
Proof.
  intros E. apply cpython_latest_inv in E as [_ L]. split.
  - intros t v Ht Ev.
    apply (latest_of_covers (y := (t, v)) L). apply in_parsed_tags. auto.
  - rewrite <- parsed_tags_nil_iff. split.
    + intros ->. destruct (parsed_tags tags) as [|y l] eqn:Ep; [reflexivity|].
      destruct (latest_of_covers (y := y) L) as (x & [] & _).
      left. reflexivity.
    + intros Ep. rewrite Ep in L. apply latest_of_nil, L.
Qed.

Lemma every_parseable_line_has_an_entry_witness :
  InstallCpython.get_latest_minor_versions (sv := semver) example_tags
  = OK example_latest
  /\ (forall t v, In t example_tags -> tag_version (sv := semver) t = Some v ->
                  exists x, In x example_latest /\ same_minor_line (snd x) v)
  /\ (example_latest = [] <->
      forall t, In t example_tags -> tag_version (sv := semver) t = None).
Proof.
  split; [vm_compute; reflexivity|].
  apply (every_parseable_line_has_an_entry (sv := semver) example_tags).
  vm_compute. reflexivity.
Defined.

(** X8: the dict key [f'{version.major}.{version.minor}'] names the minor
    line: two versions get the same key exactly when they agree on [major]
    and on [minor]. *)
Theorem minor_key_separates_lines v w :
  minor_key v = minor_key w <-> same_minor_line v w.
Proof.
  unfold minor_key, same_minor_line. split.
  - intros E.
    apply append_dot_inj in E; try apply string_of_uint_not_dot.
    destruct E as [E1 E2]. split; apply str_of_N_inj; assumption.
  - intros [-> ->]. reflexivity.
Qed.

(** ** Ties and repetition *)

Section Ties.
Context {sv : SemVer}.

(** A member of a group sits at a place of the tag list that cuts the
    group where it cuts the list. *)
Lemma group_parsed_split k tags : forall l1 x l2,
  group k (parsed_tags tags) = l1 ++ x :: l2 ->
  exists ts1 ts2,
    tags = ts1 ++ fst x :: ts2
    /\ group k (parsed_tags ts1) = l1
    /\ group k (parsed_tags ts2) = l2.
Proof.
  induction tags as [|t tags IH]; intros l1 x l2 E; simpl in E.
  - destruct l1; discriminate E.
  - destruct (tag_version t) as [v|] eqn:Ev.
    + simpl in E. destruct (String.eqb (minor_key v) k) eqn:Ek.
      * destruct l1 as [|a l1]; injection E as Ea E.
        -- subst x. exists [], tags. simpl. auto.
        -- subst a. destruct (IH _ _ _ E) as (ts1 & ts2 & -> & E1 & E2).
           exists (t :: ts1), ts2. simpl. rewrite Ev. simpl. rewrite Ek, E1.
           auto.
      * destruct (IH _ _ _ E) as (ts1 & ts2 & -> & E1 & E2).
        exists (t :: ts1), ts2. simpl. rewrite Ev. simpl. rewrite Ek. auto.
    + destruct (IH _ _ _ E) as (ts1 & ts2 & -> & E1 & E2).
      exists (t :: ts1), ts2. simpl. rewrite Ev. auto.
Qed.

Lemma parsed_tags_of_entries (out : list (string * Version)) :
  (forall t v, In (t, v) out -> tag_version t = Some v) ->
  parsed_tags (map fst out) = out.
Proof.
  induction out as [|[t v] out IH]; intros H; simpl; [reflexivity|].
  rewrite (H t v (or_introl eq_refl)), IH; [reflexivity|].
  intros t' v' Hin. apply H. right. exact Hin.
Qed.

Lemma keys_from_NoDup (vs : list (string * Version)) : forall ks,
  NoDup (ks ++ map (fun x => minor_key (snd x)) vs) ->
  keys_from vs ks = ks ++ map (fun x => minor_key (snd x)) vs.
Proof.
  induction vs as [|[t v] vs IH]; intros ks ND; simpl.
  - rewrite app_nil_r. reflexivity.
  - simpl in ND.
    assert (add_key ks (minor_key v) = ks ++ [minor_key v]) as ->.
    { unfold add_key.
      destruct (existsb (String.eqb (minor_key v)) ks) eqn:Ex; [|reflexivity].
      apply existsb_exists in Ex as (k & Hk & Ek).
      apply String.eqb_eq in Ek. subst k.
      apply NoDup_remove_2 in ND. exfalso. apply ND.
      apply in_or_app. left. exact Hk. }
    rewrite IH; rewrite <- app_assoc; simpl; [reflexivity | exact ND].
Qed.

Lemma group_of_member (out : list (string * Version)) x :
  NoDup (map (fun x => minor_key (snd x)) out) -> In x out ->
  group (minor_key (snd x)) out = [x].
Proof.
  induction out as [|y out IH]; simpl; intros ND Hx; [contradiction|].
  inversion ND as [|? ? Hy ND']; subst.
  assert (forall z, In z out -> minor_key (snd z) <> minor_key (snd y)) as Hz.
  { intros z Hin C. apply Hy. rewrite <- C.
    apply (in_map (fun x => minor_key (snd x))), Hin. }
  destruct Hx as [->|Hx].
  - rewrite String.eqb_refl. f_equal.
    clear - Hz. induction out as [|z out IH]; simpl; [reflexivity|].
    destruct (String.eqb_spec (minor_key (snd z)) (minor_key (snd x))) as [C|_].
    + exfalso. apply (Hz z (or_introl eq_refl) C).
    + apply IH. intros w Hw. apply Hz. right. exact Hw.
  - destruct (String.eqb_spec (minor_key (snd y)) (minor_key (snd x))) as [C|_].
    + exfalso. apply (Hz x Hx). symmetry. exact C.
    + apply IH; assumption.
Qed.

Lemma latest_of_itself (out out' : list (string * Version)) :
  NoDup (map (fun x => minor_key (snd x)) out) ->
  latest_of out out' -> out' = out.
Proof.
  intros ND L. unfold latest_of in L.
  rewrite (keys_from_NoDup out []) in L by exact ND. simpl in L.
  assert (forall sub res,
             (forall x, In x sub -> In x out) ->
             Forall2 (fun k x => first_max (group k out) = Some x)
                     (map (fun x => minor_key (snd x)) sub) res ->
             res = sub) as G.
  { induction sub as [|x sub IH]; intros res Hs F; inversion F; subst;
      [reflexivity|].
    f_equal.
    - rewrite (group_of_member out x ND (Hs x (or_introl eq_refl))) in *.
      simpl in *. congruence.
    - apply IH; [|assumption]. intros z Hz. apply Hs. right. exact Hz. }
  apply G; auto.
Qed.

End Ties.

(** X5: of the tags of one minor line, [get_latest_minor_versions] keeps
    the first of those with the greatest version: every parseable tag of
    the line that comes earlier in the list has a strictly lower version,
    and every one that comes later has a version that is not greater. *)
Theorem first_of_the_greatest_wins {sv : SemVer} tags out t v :
  InstallCpython.get_latest_minor_versions tags = OK out ->
  In (t, v) out ->
  exists earlier later,
    tags = earlier ++ t :: later
    /\ (forall t' v', In t' earlier -> tag_version t' = Some v' ->
                      same_minor_line v' v -> Version_lt v' v = true)
    /\ (forall t' v', In t' later -> tag_version t' = Some v' ->
                      same_minor_line v' v -> Version_le v' v = true).
Proof.
  intros E Hx. apply cpython_latest_inv in E as [_ L].
  apply (in_latest_of (t, v) L) in Hx. simpl in Hx.
  apply first_max_split in Hx as (l1 & l2 & Eg & F1 & F2).
  destruct (group_parsed_split _ _ _ _ _ Eg) as (ts1 & ts2 & Et & E1 & E2).
  exists ts1, ts2. simpl in Et. split; [exact Et|].
  rewrite Forall_forall in F1, F2. split.
  - intros t' v' Ht' Ev' S. apply Version_lt_iff.
    apply (F1 (t', v')). rewrite <- E1. apply in_group.
    split; [apply in_parsed_tags; auto | apply minor_key_inj, S].
  - intros t' v' Ht' Ev' S. apply Version_le_iff.
    apply (F2 (t', v')). rewrite <- E2. apply in_group.
    split; [apply in_parsed_tags; auto | apply minor_key_inj, S].
Qed.

Lemma first_of_the_greatest_wins_witness :
  InstallCpython.get_latest_minor_versions (sv := semver)
    ["v3.9.0"; "3.9.1"; "v3.9.1"] = OK [("3.9.1", release 3 9 1)]
  /\ exists earlier later,
       ["v3.9.0"; "3.9.1"; "v3.9.1"] = earlier ++ "3.9.1" :: later
       /\ (forall t' v', In t' earlier ->
             tag_version (sv := semver) t' = Some v' ->
             same_minor_line v' (release 3 9 1) ->
             Version_lt v' (release 3 9 1) = true)
       /\ (forall t' v', In t' later ->
             tag_version (sv := semver) t' = Some v' ->
             same_minor_line v' (release 3 9 1) ->
             Version_le v' (release 3 9 1) = true).
Proof.
  split; [vm_compute; reflexivity|].
  apply (first_of_the_greatest_wins (sv := semver)
           ["v3.9.0"; "3.9.1"; "v3.9.1"] [("3.9.1", release 3 9 1)]).
  - vm_compute. reflexivity.
  - left. reflexivity.
Defined.

(** X6: selecting again changes nothing: on the tags it returned,
    [get_latest_minor_versions] returns the same entries in the same
    order. *)
Theorem get_latest_minor_versions_idempotent {sv : SemVer} tags out :
  InstallCpython.get_latest_minor_versions tags = OK out ->
  InstallCpython.get_latest_minor_versions (map fst out) = OK out.
Proof.
  intros E.
  assert (forall t v, In (t, v) out -> In t tags /\ tag_version t = Some v) as P.
  { intros t v. apply (cpython_latest_parseable _ _ _ _ E). }
  apply cpython_latest_inv in E as [Hne L].
  pose proof (cpython_latest_spec (map fst out)) as S.
  assert (forallb nonempty (map fst out) = true) as Hne'.
  { apply forallb_nonempty_iff. intros C.
    apply in_map_iff in C as ([t v] & Et & Hx). simpl in Et. subst t.
    apply forallb_nonempty_iff in Hne. apply Hne, (P _ _ Hx). }
  rewrite Hne' in S. destruct S as (out' & E' & L').
  rewrite parsed_tags_of_entries in L' by (intros t v Hx; apply (P t v Hx)).
  rewrite E'. f_equal.
  apply latest_of_itself; [apply (latest_of_NoDup_keys L) | exact L'].
Qed.

Lemma get_latest_minor_versions_idempotent_witness :
  InstallCpython.get_latest_minor_versions (sv := semver) example_tags
  = OK example_latest
  /\ InstallCpython.get_latest_minor_versions (sv := semver)
       (map fst example_latest) = OK example_latest.
Proof.
  split; [vm_compute; reflexivity|].
  apply (get_latest_minor_versions_idempotent (sv := semver) example_tags).
  vm_compute. reflexivity.
Defined.

(** ** The tags a run works on *)

(** [split] passes a character below 128 that is not whitespace on to the
    piece it is reading, and ends the piece at an ASCII whitespace. *)
Lemma split_from_letter c s tok :
  (N_of_ascii c <? 128)%N = true -> is_space c = false ->
  split_from 0 tok (String c s) = split_from 0 (tok ++ String c EmptyString) s.
Proof.
  intros H Hc. cbn [split_from]. rewrite (space_width_ascii c s H), Hc.
  reflexivity.
Qed.

Lemma split_from_blank c s tok :
  is_space c = true ->
  split_from 0 tok (String c s)
  = match tok with
    | EmptyString => split_from 0 EmptyString s
    | _ => tok :: split_from 0 EmptyString s
    end.
Proof.
  intros Hc. cbn [split_from]. unfold space_width. rewrite Hc. reflexivity.
Qed.

(** The command line of a tag's checkout. *)
Lemma split_git_checkout t :
  nonempty t = true -> spaceless t = true ->
  split ("git checkout " ++ t) = ["git"; "checkout"; t].
Proof.
  intros Hne Hw. unfold split. cbn [append].
  repeat first [ rewrite split_from_letter by reflexivity
               | rewrite split_from_blank by reflexivity ];
    cbn [append].
  rewrite (split_from_word t EmptyString Hw Hne). reflexivity.
Qed.

Lemma split_is_words s :
  Forall (fun t => nonempty t = true /\ spaceless t = true) (split s).
Proof.
  apply Forall_forall. intros t Ht. split.
  - pose proof (split_nonempty s) as H. rewrite forallb_forall in H. auto.
  - pose proof (split_spaceless s) as H. rewrite Forall_forall in H. auto.
Qed.

Section TagsOfARun.
Context {O : Outside}.

(** What [get_versions] returns is the pieces of what [git tag] wrote. *)
Lemma get_versions_returns_split repo st st' tags :
  get_versions repo st = (st', OK tags) ->
  exists w proc listing,
    spawn (world st) (split "git tag") (Some repo) = (w, Some proc)
    /\ returncode proc = 0%Z
    /\ decode (out proc) = OK listing
    /\ tags = split listing.
Proof.
  unfold get_versions. intros E.
  destruct (check_output_cases (split "git tag") (Some repo) st)
    as [(w & p & Es & Z & Ec)|(w & o & e & _ & _ & Ec)].
  - rewrite (bindM_OK _ _ _ Ec) in E. unfold bindM, lift, ret in E.
    destruct (decode (out p)) as [listing|e] eqn:D; [|discriminate E].
    injection E as _ <-. exists w, p, listing. auto.
  - rewrite (bindM_Raise _ _ _ Ec) in E. discriminate E.
Qed.

End TagsOfARun.

(** X7: the tags [get_versions] returns are the pieces of what [git tag]
    wrote; each is non-empty and holds no whitespace character.  So
    [get_latest_minor_versions] returns on them, whatever the repository
    lists, and the command line built for a tag's checkout splits back into
    [git], [checkout] and the tag. *)
Theorem get_versions_returns_words {sv : SemVer} {O : Outside}
        repo st st' tags :
  get_versions repo st = (st', OK tags) ->
  (exists w proc listing,
      spawn (world st) (split "git tag") (Some repo) = (w, Some proc)
      /\ returncode proc = 0%Z
      /\ decode (out proc) = OK listing
      /\ tags = split listing)
  /\ Forall (fun t => nonempty t = true /\ spaceless t = true) tags
  /\ (exists out, InstallCpython.get_latest_minor_versions tags = OK out)
  /\ (forall t, In t tags ->
                split ("git checkout " ++ t) = ["git"; "checkout"; t]).
Proof.
  intros E.
  pose proof (get_versions_returns_split _ _ _ _ E) as S.
  split; [exact S|].
  destruct S as (w & proc & listing & _ & _ & _ & ->).
  pose proof (split_is_words listing) as W.
  split; [exact W|]. split.
  - apply cpython_latest_returns, split_nonempty.
  - intros t Ht. rewrite Forall_forall in W. destruct (W t Ht) as [Hne Hw].
    apply split_git_checkout; assumption.
Qed.

Lemma get_versions_returns_words_witness :
  let st := boot (two_tags ++ "v3.8.1" ++ no_break_space ++ "x" ++ nl)
                 debian_os_release [] in
  let tags := ["v3.9.0"; "v3.10.0"; "v3.8.1"; "x"] in
  get_versions "/src/cpython" st = (fst (get_versions "/src/cpython" st),
                                    OK tags)
  /\ Forall (fun t => nonempty t = true /\ spaceless t = true) tags
  /\ (exists out,
         InstallCpython.get_latest_minor_versions (sv := semver) tags = OK out)
  /\ (forall t, In t tags ->
                split ("git checkout " ++ t) = ["git"; "checkout"; t]).
Proof.
  intros st tags.
  assert (get_versions "/src/cpython" st
          = (fst (get_versions "/src/cpython" st), OK tags))
    as E by (vm_compute; reflexivity).
  split; [exact E|].
  exact (proj2 (get_versions_returns_words (sv := semver) _ _ _ _ E)).
Defined.

(** ** What a run can raise *)

Section Raising.
Context {O : Outside}.

Lemma raises_ret {A : Type} P (a : A) : raises_among P (ret a).
Proof. intros st e E. discriminate E. Qed.

Lemma raises_print P file text : raises_among P (print file text).
Proof. intros st e E. discriminate E. Qed.

Lemma raises_lift {A : Type} P (r : result A) :
  (forall e, r = Raise e -> P e = true) -> raises_among P (lift r).
Proof. intros H st e E. apply H. exact E. Qed.

Lemma raises_decode P b :
  P UnicodeDecodeError = true -> raises_among P (lift (decode b)).
Proof.
  intros H. apply raises_lift. intros e E.
  rewrite (decode_Raise _ _ E). exact H.
Qed.

Lemma raises_bind_with {A B : Type} P (Q : A -> Prop)
      (m : M A) (k : A -> M B) :
  raises_among P m -> returns_with Q m ->
  (forall a, Q a -> raises_among P (k a)) ->
  raises_among P (bindM m k).
Proof.
  intros Hm Hq Hk st e. rewrite bindM_step.
  pose proof (Hm st) as Hm'. pose proof (Hq st) as Hq'.
  destruct (m st) as [st' [a|e']]; simpl in *.
  - apply (Hk a (Hq' _ _ eq_refl)).
  - intros E. injection E as <-. apply Hm'. reflexivity.
Qed.

Lemma raises_bind {A B : Type} P (m : M A) (k : A -> M B) :
  raises_among P m -> (forall a, raises_among P (k a)) ->
  raises_among P (bindM m k).
Proof.
  intros Hm Hk. apply (raises_bind_with P (fun _ => True)); auto.
  intros st st' a _. exact I.
Qed.

Lemma raises_try P body handler :
  raises_among P body -> raises_among P handler ->
  raises_among P (try_except_OSError body handler).
Proof.
  intros Hb Hh st e. unfold try_except_OSError.
  pose proof (Hb st) as Hb'.
  destruct (body st) as [st' [[]|e']]; simpl in *; [discriminate|].
  destruct (is_OSError e'); [apply Hh|].
  intros E. injection E as <-. apply Hb'. reflexivity.
Qed.

Lemma raises_for_each {A : Type} P (l : list A) body :
  (forall x, raises_among P (body x)) -> raises_among P (for_each l body).
Proof.
  intros H. induction l as [|x l IH]; cbn [for_each].
  - apply raises_ret.
  - apply raises_bind; auto.
Qed.

Lemma raises_check_output P argv cwd :
  P FileNotFoundError = true ->
  (forall rc, P (CalledProcessError rc) = true) ->
  raises_among P (check_output argv cwd).
Proof.
  intros H1 H2 st e. unfold check_output, bindM, popen.
  destruct (spawn (world st) argv cwd) as [w [proc|]]; simpl.
  - destruct (returncode proc =? 0)%Z; simpl; intros E;
      [discriminate E | injection E as <-; apply H2].
  - intros E. injection E as <-. exact H1.
Qed.

Lemma raises_safe_run_process P cmd cwd :
  P OSError = true -> P FileNotFoundError = true ->
  P UnicodeDecodeError = true ->
  raises_among P (safe_run_process cmd cwd).
Proof.
  intros H1 H2 H3 st e E.
  destruct (safe_run_process_ran cmd cwd st) as (evs & r & w' & Er & R).
  rewrite Er in E. cbn [snd] in E. subst r.
  destruct (ran_raises R) as [->|[->| ->]]; assumption.
Qed.

Lemma raises_read_os_release P :
  P FileNotFoundError = true -> P OSError = true ->
  P UnicodeDecodeError = true ->
  raises_among P read_os_release.
Proof.
  intros H1 H2 H3 st e. unfold read_os_release.
  destruct (os_release (world st)); simpl; intros E;
    [discriminate E | | |]; injection E as <-; assumption.
Qed.

Lemma returns_get_versions repo :
  returns_with (fun tags => ~ In EmptyString tags) (get_versions repo).
Proof.
  intros st st' tags E.
  apply get_versions_returns_split in E as (w & p & listing & _ & _ & _ & ->).
  apply forallb_nonempty_iff, split_nonempty.
Qed.

Lemma raises_get_versions P repo :
  P FileNotFoundError = true ->
  (forall rc, P (CalledProcessError rc) = true) ->
  P UnicodeDecodeError = true ->
  raises_among P (get_versions repo).
Proof.
  intros H1 H2 H3. unfold get_versions.
  apply raises_bind; [apply raises_check_output; assumption|].
  intros output. apply raises_bind; [apply raises_decode, H3|].
  intros text. apply raises_ret.
Qed.

Lemma raises_run_actions P cwd actions :
  P OSError = true -> P FileNotFoundError = true ->
  P UnicodeDecodeError = true ->
  raises_among P (run_actions cwd actions).
Proof.
  intros H1 H2 H3.
  induction actions as [|[msg|cmd] rest IH]; cbn [run_actions].
  - apply raises_ret.
  - apply raises_bind; [apply raises_print | intros _; exact IH].
  - apply raises_bind; [apply raises_safe_run_process; assumption|].
    intros _. exact IH.
Qed.

Lemma raises_ext {A : Type} P (m m' : M A) :
  (forall st, m st = m' st) -> raises_among P m' -> raises_among P m.
Proof. intros H R st. rewrite H. apply R. Qed.

End Raising.

Section RaisingSelection.
Context {sv : SemVer}.

Lemma filter_versions_raises keep bound vs e :
  filter_versions keep bound vs = Raise e -> run_exception e = true.
Proof.
  rewrite filter_versions_spec. destruct vs; [discriminate|].
  destruct (Version_parse bound); [discriminate|].
  intros E. injection E as <-. reflexivity.
Qed.

Lemma select_versions_raises minimum maximum tags e :
  ~ In EmptyString tags ->
  InstallCpython.select_versions minimum maximum tags = Raise e ->
  run_exception e = true.
Proof.
  intros Hne. apply forallb_nonempty_iff in Hne.
  destruct (cpython_latest_returns tags Hne) as (latest & E).
  unfold InstallCpython.select_versions. rewrite E. simpl.
  destruct minimum as [lo|]; simpl.
  - destruct (filter_versions Version_ge lo latest) as [mid|e'] eqn:E1; simpl.
    + destruct maximum as [hi|]; [apply filter_versions_raises | discriminate].
    + intros E'. injection E' as <-. apply (filter_versions_raises _ _ _ _ E1).
  - destruct maximum as [hi|]; [apply filter_versions_raises | discriminate].
Qed.

Lemma allminor_latest_raises minimum tags e :
  ~ In EmptyString tags ->
  InstallAllMinorVersions.get_latest_minor_versions tags minimum = Raise e ->
  run_exception e = true.
Proof.
  intros Hne. apply forallb_nonempty_iff in Hne.
  pose proof (allminor_latest_spec tags minimum) as S. rewrite Hne in S.
  destruct (filter_versions Version_ge minimum (parsed_tags tags))
    as [vs|e'] eqn:F.
  - destruct S as (out & -> & _). discriminate.
  - rewrite S. intros E. injection E as <-.
    apply (filter_versions_raises _ _ _ _ F).
Qed.

End RaisingSelection.

(** X10: neither script can end with [IndexError] or [KeyError]: the tags
    come out of [split], so [normalize_version] never indexes an empty
    string, and the grouping never misses a key.  A run ends normally or
    with [ValueError], [OSError], [FileNotFoundError] or
    [CalledProcessError]. *)
Theorem run_never_ends_with_IndexError {sv : SemVer} {O : Outside} :
  (forall args, raises_among run_exception (InstallCpython.main args))
  /\ (forall args,
         raises_among run_exception (InstallAllMinorVersions.main args)).
Proof.
  assert (forall repo ref (restore : string -> string -> M unit),
             (forall st, restore repo ref st
                         = bindM (print stdout (">>> Restoring head to " ++ ref))
                                 (fun _ =>
                           bindM (check_output (split ("git checkout " ++ ref))
                                               (Some repo))
                                 (fun _ => ret tt)) st) ->
             raises_among run_exception (restore repo ref)) as Hrestore.
  { intros repo ref restore H st e. rewrite H. revert st e.
    apply raises_bind; [apply raises_print|]. intros _.
    apply raises_bind; [apply raises_check_output; reflexivity|]. intros _.
    apply raises_ret. }
  assert (forall repo (selection : list string ->
                                   result (list (string * Version))),
             (forall tags e, ~ In EmptyString tags ->
                             selection tags = Raise e -> run_exception e = true) ->
             raises_among run_exception
               (bindM (get_versions repo) (fun versions =>
                bindM (lift (selection versions)) (fun versions =>
                bindM (check_output (split "git rev-parse HEAD") (Some repo))
                      (fun output =>
                bindM (lift (decode output)) (fun initial_ref =>
                bindM (print stdout (">>> Initial ref: " ++ strip initial_ref))
                      (fun _ => ret (map fst versions, strip initial_ref))))))))
    as Hrecord.
  { intros repo selection Hsel.
    apply (raises_bind_with _ _ _ _ (raises_get_versions _ repo eq_refl
                                       (fun _ => eq_refl) eq_refl)
                            (returns_get_versions repo)).
    intros tags Hne.
    apply raises_bind; [apply raises_lift; intros e; apply Hsel, Hne|].
    intros versions.
    apply raises_bind; [apply raises_check_output; reflexivity|]. intros output.
    apply raises_bind; [apply raises_decode; reflexivity|]. intros r.
    apply raises_bind; [apply raises_print | intros _; apply raises_ret]. }
  assert (forall b repo,
             raises_among run_exception
               (if b : bool
                then bindM (print stdout ">>> Pulling")
                           (fun _ => safe_run_process "git pull" (Some repo))
                else print stdout ">>> Skipping pulling")) as Hpull.
  { intros [|] repo; [|apply raises_print].
    apply raises_bind; [apply raises_print|]. intros _.
    apply raises_safe_run_process; reflexivity. }
  assert (forall repo steps (body : string -> M unit) order,
             (forall tag st, body tag st
                             = run_actions (Some repo) (steps tag) st) ->
             raises_among run_exception
               (for_each order
                  (fun tag => try_except_OSError (body tag) (ret tt))))
    as Hloop.
  { intros repo steps body order Hbody. apply raises_for_each. intros tag.
    apply raises_try; [|apply raises_ret].
    apply (raises_ext _ _ _ (Hbody tag)).
    apply raises_run_actions; reflexivity. }
  split; intros args.
  - unfold InstallCpython.main, InstallCpython.prepare.
    apply raises_bind.
    + apply raises_bind.
      * apply (Hrecord _ (InstallCpython.select_versions
                            (InstallCpython.minimum_python_version args)
                            (InstallCpython.maximum_python_version args))).
        intros tags e Hne. apply select_versions_raises, Hne.
      * intros p. apply raises_bind; [|intros _; apply raises_ret].
        unfold InstallCpython.set_up.
        apply raises_bind; [apply raises_print|]. intros _.
        apply raises_bind; [apply raises_read_os_release; reflexivity|].
        intros content.
        apply raises_bind.
        { apply raises_lift. intros e.
          rewrite detect_distro_like_spec.
          destruct (InstallCpython.id_like_values content) as [|v [|w l]];
            try (intros E; injection E as <-; reflexivity).
          destruct (String.eqb v "debian"); [discriminate|].
          destruct (String.eqb v "rhel fedora"); [discriminate|].
          intros E; injection E as <-; reflexivity. }
        intros d. apply raises_bind; [|intros _; apply Hpull].
        destruct d; unfold InstallCpython.install_system_dependencies;
          repeat (apply raises_bind; [|intros _]);
          apply raises_safe_run_process; reflexivity.
    + intros p. apply raises_bind.
      * apply (Hloop (InstallCpython.cpython_repo_dir args) cpython_steps).
        apply cpython_build_version_actions.
      * intros _. apply Hrestore. reflexivity.
  - unfold InstallAllMinorVersions.main, InstallAllMinorVersions.prepare.
    apply raises_bind.
    + apply raises_bind.
      * apply (Hrecord _ (fun versions =>
                 InstallAllMinorVersions.get_latest_minor_versions versions
                   (InstallAllMinorVersions.minimum_python_version args))).
        intros tags e Hne. apply allminor_latest_raises, Hne.
      * intros p. apply raises_bind; [|intros _; apply raises_ret].
        apply Hpull.
    + intros p. apply raises_bind.
      * apply (Hloop (InstallAllMinorVersions.cpython_repo_dir args)
                     allminor_steps).
        apply allminor_build_version_actions.
      * intros _. apply Hrestore. reflexivity.
Qed.

Lemma run_never_ends_with_IndexError_witness :
  snd (InstallCpython.main (sv := semver) (cpython_args true)
         (boot two_tags debian_os_release [["git"; "pull"]]))
  = Raise OSError
  /\ run_exception OSError = true.
Proof.
  assert (snd (InstallCpython.main (sv := semver) (cpython_args true)
                 (boot two_tags debian_os_release [["git"; "pull"]]))
          = Raise OSError) as E by (vm_compute; reflexivity).
  split; [exact E|].
  exact (proj1 (run_never_ends_with_IndexError (sv := semver))
               (cpython_args true) _ _ E).
Defined.

(** ** System dependencies *)



(** ** Runs on which every command succeeds *)

Lemma commands_run_app {O : Outside} (l1 l2 : list event) :
  commands_run (l1 ++ l2) = commands_run l1 ++ commands_run l2.
Proof.
  induction l1 as [|[argv cwd o|file text] l1 IH]; simpl;
    rewrite ?IH; reflexivity.
Qed.

Section AllSucceed.
Context {O : Outside}.
Hypothesis all_ok : every_command_succeeds.

Lemma safe_run_process_ok cmd cwd st :
  exists w proc,
    safe_run_process cmd cwd st
    = (mkState w (log st ++ [Exec (split cmd) cwd (Some proc)]), OK tt).
Proof.
  destruct (all_ok (world st) (split cmd) cwd) as (w' & proc & Es & Z).
  exists w', proc. unfold safe_run_process, bindM, popen.
  rewrite Es, Z. reflexivity.
Qed.

Lemma check_output_ok argv cwd st :
  exists st' output, check_output argv cwd st = (st', OK output).
Proof.
  destruct (all_ok (world st) argv cwd) as (w' & proc & Es & Z).
  unfold check_output, bindM, popen. rewrite Es, Z. simpl.
  eexists _, _. reflexivity.
Qed.

Lemma succeeds_bind_with {A B : Type} (Q : A -> Prop)
      (m : M A) (k : A -> M B) :
  succeeds m -> returns_with Q m -> (forall a, Q a -> succeeds (k a)) ->
  succeeds (bindM m k).
Proof.
  intros Hm Hq Hk st. destruct (Hm st) as (st' & a & E).
  rewrite (bindM_OK _ _ _ E). apply (Hk a (Hq _ _ _ E)).
Qed.

Lemma succeeds_bind {A B : Type} (m : M A) (k : A -> M B) :
  succeeds m -> (forall a, succeeds (k a)) -> succeeds (bindM m k).
Proof.
  intros Hm Hk. apply (succeeds_bind_with (fun _ => True)); auto.
  intros st st' a _. exact I.
Qed.

Lemma succeeds_ret {A : Type} (a : A) : succeeds (ret a).
Proof. intros st. eexists _, _. reflexivity. Qed.

Lemma succeeds_print file text : succeeds (print file text).
Proof. intros st. eexists _, _. reflexivity. Qed.

Lemma succeeds_check_output argv cwd : succeeds (check_output argv cwd).
Proof. intros st. apply check_output_ok. Qed.

Lemma succeeds_safe_run_process cmd cwd : succeeds (safe_run_process cmd cwd).
Proof.
  intros st. destruct (safe_run_process_ok cmd cwd st) as (w & p & E).
  eexists _, _. exact E.
Qed.

(** A build sequence runs every one of its commands. *)
Lemma run_actions_all cwd actions : forall st,
  exists st',
    run_actions cwd actions st = (st', OK tt)
    /\ commands_run (log st')
       = commands_run (log st) ++ map split (commands_of_actions actions).
Proof.
  induction actions as [|[msg|cmd] rest IH]; intros st; cbn [run_actions].
  - exists st. simpl. rewrite app_nil_r. auto.
  - rewrite bindM_step. unfold print at 1.
    destruct (IH (mkState (world st) (log st ++ [Print stdout msg])))
      as (st' & E & C).
    exists st'. split; [exact E|]. rewrite C. simpl.
    rewrite commands_run_app. simpl. rewrite app_nil_r. reflexivity.
  - destruct (safe_run_process_ok cmd cwd st) as (w & p & Es).
    rewrite (bindM_OK _ _ _ Es).
    destruct (IH (mkState w (log st ++ [Exec (split cmd) cwd (Some p)])))
      as (st' & E & C).
    exists st'. split; [exact E|]. rewrite C. simpl.
    rewrite commands_run_app, <- app_assoc. reflexivity.
Qed.

Lemma for_each_try_all cwd steps (body : string -> M unit) order :
  (forall tag st, body tag st = run_actions cwd (steps tag) st) ->
  forall st,
    exists st',
      for_each order (fun tag => try_except_OSError (body tag) (ret tt)) st
      = (st', OK tt)
      /\ commands_run (log st')
         = commands_run (log st)
           ++ flat_map (fun tag => map split (commands_of_actions (steps tag)))
                       order.
Proof.
  intros Hbody. induction order as [|tag order IH]; intros st; cbn [for_each].
  - exists st. simpl. rewrite app_nil_r. auto.
  - destruct (run_actions_all cwd (steps tag) st) as (st1 & E & C).
    assert (try_except_OSError (body tag) (ret tt) st = (st1, OK tt)) as Et.
    { unfold try_except_OSError. rewrite Hbody, E. reflexivity. }
    rewrite (bindM_OK _ _ _ Et).
    destruct (IH st1) as (st' & E' & C').
    exists st'. split; [exact E'|].
    rewrite C', C, <- app_assoc. reflexivity.
Qed.

End AllSucceed.

(** X12: on a machine where every command succeeds, the loop of
    [install_cpython.py] runs, for each tag in turn, exactly the seven
    commands of the build sequence, in the order of the source; that of
    [install_all_minor_versions.py] does the same with its own [configure]
    and [make] command lines. *)
Theorem loop_runs_every_command_when_all_succeed {O : Outside} repo tags st :
  every_command_succeeds ->
  commands_run (log (fst (InstallCpython.build_all repo tags st)))
  = commands_run (log st)
    ++ flat_map (fun tag =>
                   map split ["git add -A";
                              "git reset --hard";
                              ("git checkout " ++ tag)%string;
                              "./configure --enable-optimizations";
                              "make clean";
                              "make -j";
                              "make altinstall"])
                (sorted_reverse tags)
  /\ commands_run (log (fst (InstallAllMinorVersions.build_all repo tags st)))
     = commands_run (log st)
       ++ flat_map (fun tag =>
                      map split ["git add -A";
                                 "git reset --hard";
                                 ("git checkout " ++ tag)%string;
                                 "./configure";
                                 "make clean";
                                 "make";
                                 "make altinstall"])
                   (sorted_reverse tags).
Proof.
  intros H. split.
  - destruct (for_each_try_all H (Some repo) cpython_steps _
                (sorted_reverse tags) (cpython_build_version_actions repo) st)
      as (st' & E & C).
    unfold InstallCpython.build_all. rewrite E. exact C.
  - destruct (for_each_try_all H (Some repo) allminor_steps _
                (sorted_reverse tags) (allminor_build_version_actions repo) st)
      as (st' & E & C).
    unfold InstallAllMinorVersions.build_all. rewrite E. exact C.
Qed.

Lemma machine_without_failures tag_list os :
  every_command_succeeds (O := machine tag_list os []).
Proof.
  intros w argv cwd. eexists _, _. split; [reflexivity|]. simpl.
  destruct (argv_eqb argv ["git"; "tag"]); [reflexivity|].
  destruct (argv_eqb argv ["git"; "rev-parse"; "HEAD"]); reflexivity.
Defined.

Lemma loop_runs_every_command_when_all_succeed_witness :
  commands_run
    (log (fst (InstallCpython.build_all "/src/cpython" ["v3.10.0"]
                 (boot two_tags debian_os_release []))))
  = [["git"; "add"; "-A"]; ["git"; "reset"; "--hard"];
     ["git"; "checkout"; "v3.10.0"];
     ["./configure"; "--enable-optimizations"]; ["make"; "clean"];
     ["make"; "-j"]; ["make"; "altinstall"]].
Proof.
  exact (proj1 (loop_runs_every_command_when_all_succeed
                  "/src/cpython" ["v3.10.0"]
                  (boot two_tags debian_os_release [])
                  (machine_without_failures two_tags debian_os_release))).
Defined.

Section AllSucceedWithText.
Context {O : Outside}.
Hypothesis all_ok : every_command_succeeds.
Hypothesis all_text : every_output_is_text.

Lemma returns_text argv cwd :
  returns_with (fun output => exists text, decode output = OK text)
               (check_output argv cwd).
Proof.
  intros st st' output E.
  destruct (check_output_cases argv cwd st)
    as [(w & p & Es & _ & Ec)|(w & o & e & _ & _ & Ec)];
    rewrite Ec in E; [|discriminate E].
  injection E as _ <-. apply (all_text _ _ _ _ _ Es).
Qed.

(** [check_output(...).decode()], then [k]. *)
Lemma succeeds_decoded {A : Type} argv cwd (k : string -> M A) :
  (forall text, succeeds (k text)) ->
  succeeds (bindM (check_output argv cwd) (fun output =>
            bindM (lift (decode output)) k)).
Proof.
  intros Hk.
  apply (succeeds_bind_with _ _ _ (succeeds_check_output all_ok argv cwd)
                            (returns_text argv cwd)).
  intros output (text & D). intros st. unfold bindM, lift. rewrite D.
  apply Hk.
Qed.

Lemma succeeds_get_versions repo : succeeds (get_versions repo).
Proof.
  unfold get_versions. apply succeeds_decoded. intros text. apply succeeds_ret.
Qed.

Lemma succeeds_loop cwd steps (body : string -> M unit) order :
  (forall tag st, body tag st = run_actions cwd (steps tag) st) ->
  succeeds (for_each order (fun tag => try_except_OSError (body tag) (ret tt))).
Proof.
  intros Hbody st.
  destruct (for_each_try_all all_ok cwd steps body order Hbody st)
    as (st' & E & _).
  exists st', tt. exact E.
Qed.

End AllSucceedWithText.

(** X13: on a machine where every command succeeds and writes text to its
    standard output, a run of [install_cpython.py] ends normally as soon as
    [/etc/os-release] names the one value [debian] and the bounds given
    parse; a run of [install_all_minor_versions.py] as soon as the minimum
    parses. *)
Theorem run_ends_normally_when_all_succeed {sv : SemVer} {O : Outside} :
  every_command_succeeds ->
  every_output_is_text ->
  (forall args content st,
      (forall w, os_release w = Content content) ->
      InstallCpython.id_like_values content = ["debian"] ->
      bound_parses (InstallCpython.minimum_python_version args) ->
      bound_parses (InstallCpython.maximum_python_version args) ->
      snd (InstallCpython.main args st) = OK tt)
  /\ (forall args st,
         bound_parses
           (Some (InstallAllMinorVersions.minimum_python_version args)) ->
         snd (InstallAllMinorVersions.main args st) = OK tt).
Proof.
  intros H T.
  assert (forall (m : M unit) st, succeeds m -> snd (m st) = OK tt) as Done.
  { intros m st S. destruct (S st) as (st' & [] & ->). reflexivity. }
  assert (forall repo ref (restore : string -> string -> M unit),
             (forall st, restore repo ref st
                         = bindM (print stdout (">>> Restoring head to " ++ ref))
                                 (fun _ =>
                           bindM (check_output (split ("git checkout " ++ ref))
                                               (Some repo))
                                 (fun _ => ret tt)) st) ->
             succeeds (restore repo ref)) as Hrestore.
  { intros repo ref restore E st. rewrite E. revert st.
    apply succeeds_bind; [apply succeeds_print|]. intros _.
    apply succeeds_bind; [apply (succeeds_check_output H)|]. intros _.
    apply succeeds_ret. }
  assert (forall repo (selection : list string ->
                                   result (list (string * Version))),
             (forall tags, ~ In EmptyString tags ->
                           exists out, selection tags = OK out) ->
             succeeds
               (bindM (get_versions repo) (fun versions =>
                bindM (lift (selection versions)) (fun versions =>
                bindM (check_output (split "git rev-parse HEAD") (Some repo))
                      (fun output =>
                bindM (lift (decode output)) (fun initial_ref =>
                bindM (print stdout (">>> Initial ref: " ++ strip initial_ref))
                      (fun _ => ret (map fst versions, strip initial_ref))))))))
    as Hrecord.
  { intros repo selection Hsel.
    apply (succeeds_bind_with _ _ _ (succeeds_get_versions H T repo)
                              (returns_get_versions repo)).
    intros tags Hne. destruct (Hsel tags Hne) as (out & Eo).
    apply succeeds_bind.
    - intros st. rewrite Eo. eexists _, _. reflexivity.
    - intros versions. apply (succeeds_decoded H T). intros r.
      apply succeeds_bind; [apply succeeds_print | intros _; apply succeeds_ret]. }
  assert (forall b repo,
             succeeds
               (if b : bool
                then bindM (print stdout ">>> Pulling")
                           (fun _ => safe_run_process "git pull" (Some repo))
                else print stdout ">>> Skipping pulling")) as Hpull.
  { intros [|] repo; [|apply succeeds_print].
    apply succeeds_bind; [apply succeeds_print|]. intros _.
    apply (succeeds_safe_run_process H). }
  split.
  - intros args content st Hos Hid Hlo Hhi. apply Done.
    unfold InstallCpython.main, InstallCpython.prepare.
    apply succeeds_bind.
    + apply succeeds_bind.
      * apply (Hrecord _ (InstallCpython.select_versions
                            (InstallCpython.minimum_python_version args)
                            (InstallCpython.maximum_python_version args))).
        intros tags Hne. apply select_versions_returns; try assumption.
        apply forallb_nonempty_iff, Hne.
      * intros p. apply succeeds_bind; [|intros _; apply succeeds_ret].
        unfold InstallCpython.set_up.
        apply succeeds_bind; [apply succeeds_print|]. intros _.
        apply (succeeds_bind_with (fun c => c = content)).
        { intros s. unfold read_os_release. rewrite Hos.
          eexists _, _. reflexivity. }
        { intros s s' c. unfold read_os_release. rewrite Hos.
          intros E. injection E as _ <-. reflexivity. }
        intros c ->.
        apply (succeeds_bind_with (fun d => d = InstallCpython.Debian)).
        { intros s. unfold lift. rewrite detect_distro_like_spec, Hid. simpl.
          eexists _, _. reflexivity. }
        { intros s s' d. unfold lift. rewrite detect_distro_like_spec, Hid.
          simpl. intros E. injection E as _ <-. reflexivity. }
        intros d ->. apply succeeds_bind; [|intros _; apply Hpull].
        unfold InstallCpython.install_system_dependencies.
        repeat (apply succeeds_bind; [|intros _]);
          apply (succeeds_safe_run_process H).
    + intros p. apply succeeds_bind.
      * apply (succeeds_loop H (Some (InstallCpython.cpython_repo_dir args))
                             cpython_steps).
        apply cpython_build_version_actions.
      * intros _. apply Hrestore. reflexivity.
  - intros args st (b & Eb). apply Done.
    unfold InstallAllMinorVersions.main, InstallAllMinorVersions.prepare.
    apply succeeds_bind.
    + apply succeeds_bind.
      * apply (Hrecord _ (fun versions =>
                 InstallAllMinorVersions.get_latest_minor_versions versions
                   (InstallAllMinorVersions.minimum_python_version args))).
        intros tags Hne. apply forallb_nonempty_iff in Hne.
        pose proof (allminor_latest_spec tags
                      (InstallAllMinorVersions.minimum_python_version args)) as S.
        rewrite Hne, filter_versions_spec, Eb in S.
        destruct (parsed_tags tags); destruct S as (out & E & _);
          exists out; exact E.
      * intros p. apply succeeds_bind; [|intros _; apply succeeds_ret].
        apply Hpull.
    + intros p. apply succeeds_bind.
      * apply (succeeds_loop
                 H (Some (InstallAllMinorVersions.cpython_repo_dir args))
                 allminor_steps).
        apply allminor_build_version_actions.
      * intros _. apply Hrestore. reflexivity.
Qed.

Lemma machine_writes_text tag_list os :
  well_formed [] tag_list = true ->
  every_output_is_text (O := machine tag_list os []).
Proof.
  intros Ht w argv cwd w' proc E. injection E as _ <-. simpl.
  destruct (argv_eqb argv ["git"; "tag"]).
  - exists tag_list. unfold decode. simpl. rewrite Ht. reflexivity.
  - destruct (argv_eqb argv ["git"; "rev-parse"; "HEAD"]);
      eexists; reflexivity.
Defined.

Lemma run_ends_normally_when_all_succeed_witness :
  every_command_succeeds (O := machine two_tags debian_os_release [])
  /\ every_output_is_text (O := machine two_tags debian_os_release [])
  /\ snd (InstallCpython.main (sv := semver) (cpython_args true)
            (boot two_tags debian_os_release [])) = OK tt
  /\ snd (InstallAllMinorVersions.main (sv := semver) (allminor_args true)
            (boot two_tags debian_os_release [])) = OK tt.
Proof.
  pose proof (machine_without_failures two_tags debian_os_release) as H.
  pose proof (machine_writes_text two_tags debian_os_release eq_refl) as T.
  split; [exact H|]. split; [exact T|]. split.
  - apply (proj1 (run_ends_normally_when_all_succeed (sv := semver) H T)
                 (cpython_args true) debian_os_release).
    + intros w. reflexivity.
    + reflexivity.
    + exists (release 3 0 0). reflexivity.
    + exact I.
  - apply (proj2 (run_ends_normally_when_all_succeed (sv := semver) H T)
                 (allminor_args true)).
    exists (release 3 0 0). reflexivity.
Defined.

(** ** The tags a run builds *)

Section BuiltTags.
Context {sv : SemVer} {O : Outside}.

Lemma record_returns
      (selection : list string -> result (list (string * Version)))
      repo st st' tags ref :
  bindM (get_versions repo) (fun versions =>
  bindM (lift (selection versions)) (fun versions =>
  bindM (check_output (split "git rev-parse HEAD") (Some repo))
        (fun output =>
  bindM (lift (decode output)) (fun initial_ref =>
  bindM (print stdout (">>> Initial ref: " ++ strip initial_ref)) (fun _ =>
  ret (map fst versions, strip initial_ref)))))) st = (st', OK (tags, ref)) ->
  exists st0 listed versions,
    get_versions repo st = (st0, OK listed)
    /\ selection listed = OK versions
    /\ tags = map fst versions.
Proof.
  intros E. rewrite bindM_step in E.
  destruct (get_versions repo st) as [st0 [listed|e]]; [|discriminate E].
  exists st0, listed.
  rewrite bindM_step in E. unfold lift at 1 in E.
  destruct (selection listed) as [versions|e]; [|discriminate E].
  exists versions. split; [reflexivity|]. split; [reflexivity|].
  rewrite bindM_step in E.
  destruct (check_output (split "git rev-parse HEAD") (Some repo) st0)
    as [st1 [output|e]]; [|discriminate E].
  rewrite bindM_step in E. unfold lift at 1 in E.
  destruct (decode output) as [r|e]; [|discriminate E].
  unfold bindM, print, ret in E. injection E as _ <- _. reflexivity.
Qed.

Lemma NoDup_tags_of_lines (out : list (string * Version)) :
  (forall t v, In (t, v) out -> tag_version t = Some v) ->
  NoDup (map line out) -> NoDup (map fst out).
Proof.
  induction out as [|[t v] out IH]; simpl; intros H ND; [constructor|].
  inversion ND as [|? ? Hx ND']; subst. constructor.
  - intros C. apply Hx. apply in_map_iff in C as ([t' v'] & Et & Hy).
    simpl in Et. subst t'.
    assert (v' = v) as ->.
    { pose proof (H t v (or_introl eq_refl)) as E1.
      pose proof (H t v' (or_intror Hy)) as E2. congruence. }
    apply (in_map line) in Hy. exact Hy.
  - apply IH; [|exact ND']. intros t' v' Hy. apply H. right. exact Hy.
Qed.

End BuiltTags.

Lemma latest_of_unique {vs a b} : latest_of vs a -> latest_of vs b -> a = b.
Proof.
  unfold latest_of. generalize (keys_from vs []). intros ks Fa. revert b.
  induction Fa as [|k x ks a Hx Fa IH]; intros b Fb;
    inversion Fb as [|? y ? b' Hy Fb']; subst; [reflexivity|].
  f_equal; [congruence | apply IH, Fb'].
Qed.

(** X14: the tags a run of [install_cpython.py] goes on to build are
    pieces of what [git tag] wrote in the repository the run started in;
    each parses to a version that meets the bounds given; and no tag is
    built twice. *)
Theorem built_tags_are_listed_parse_and_differ
        {sv : SemVer} {O : Outside} args st st1 tags ref :
  InstallCpython.prepare args st = (st1, OK (tags, ref)) ->
  exists w proc listing,
    spawn (world st) (split "git tag")
          (Some (InstallCpython.cpython_repo_dir args)) = (w, Some proc)
    /\ returncode proc = 0%Z
    /\ decode (out proc) = OK listing
    /\ (forall t, In t tags ->
          In t (split listing)
          /\ exists v,
               tag_version t = Some v
               /\ meets Version_ge (InstallCpython.minimum_python_version args) v
               /\ meets Version_le (InstallCpython.maximum_python_version args) v)
    /\ NoDup tags.
Proof.
  intros E. apply cpython_prepare_returns in E as (st0' & E & _).
  apply (record_returns
           (InstallCpython.select_versions
              (InstallCpython.minimum_python_version args)
              (InstallCpython.maximum_python_version args))) in E
    as (st0 & listed & versions & Eg & Es & ->).
  apply get_versions_returns_split in Eg
    as (w & proc & listing & Sp & Z & D & ->).
  exists w, proc, listing. repeat (split; [assumption|]).
  set (listed := split listing) in *.
  destruct (select_versions_in ("", release 0 0 0) Es)
    as (latest & L & _ & p & Hp).
  assert (forall t v, In (t, v) versions ->
                      In (t, v) latest
                      /\ meets Version_ge
                               (InstallCpython.minimum_python_version args) v
                      /\ meets Version_le
                               (InstallCpython.maximum_python_version args) v)
    as Hin.
  { intros t v Hx.
    destruct (select_versions_in (t, v) Es) as (latest' & L' & I & _).
    rewrite (latest_of_unique L' L) in I. apply I, Hx. }
  split.
  - intros t Ht. apply in_map_iff in Ht as ([t' v] & Et & Hx). simpl in Et.
    subst t'. destruct (Hin t v Hx) as (Hl & Hm).
    destruct (greatest_of_latest listed L Hl) as (H1 & H2 & _).
    split; [exact H1|]. exists v. split; [exact H2 | exact Hm].
  - apply NoDup_tags_of_lines.
    + intros t v Hx. destruct (Hin t v Hx) as (Hl & _).
      apply (greatest_of_latest listed L Hl).
    + apply NoDup_lines. subst versions.
      pose proof (latest_of_NoDup_keys L) as ND. clear - ND.
      induction latest as [|a l IH]; simpl in *; [constructor|].
      inversion ND as [|? ? Ha Hl]; subst.
      destruct (p a); simpl; [|auto]. constructor; [|auto].
      intros C. apply Ha. apply in_map_iff in C as (y & Ey & Hy).
      apply filter_In in Hy as [Hy _]. apply in_map_iff. exists y. auto.
Qed.

Lemma built_tags_are_listed_parse_and_differ_witness :
  let listing := (two_tags ++ "v3.8.1" ++ no_break_space ++ "x" ++ nl)%string in
  let st := boot listing debian_os_release [["make"; "-j"]] in
  let r := InstallCpython.prepare (sv := semver) (cpython_args false) st in
  let tags := ["v3.9.0"; "v3.10.0"; "v3.8.1"] in
  r = (fst r, OK (tags, "0123abc"))
  /\ exists w proc listing,
       spawn (world st) (split "git tag") (Some "/src/cpython") = (w, Some proc)
       /\ returncode proc = 0%Z
       /\ decode (out proc) = OK listing
       /\ (forall t, In t tags ->
             In t (split listing)
             /\ exists v,
                  tag_version (sv := semver) t = Some v
                  /\ meets (sv := semver) Version_ge (Some "3.0.0") v
                  /\ meets (sv := semver) Version_le None v)
       /\ NoDup tags.
Proof.
  intros listing st r tags.
  assert (r = (fst r, OK (tags, "0123abc"))) as E
      by (vm_compute; reflexivity).
  split; [exact E|].
  exact (built_tags_are_listed_parse_and_differ
           (sv := semver) (cpython_args false) st _ _ _ E).
Defined.

(** ** The ref of the repository *)




(** ** The loop, whatever the commands do *)


